(** * Face-transfer pipeline of [main.py]: a shallow embedding and its properties

    The program warps a still face onto every frame of a video by a
    piecewise-affine map over a Delaunay triangulation of facial landmarks and
    then colour-corrects the warped frame by per-channel histogram matching.

    The embedding follows [main.py] function by function.  OpenCV, NumPy and
    MediaPipe are collaborators of the program: the operations the program
    delegates to them (landmark detection, Delaunay subdivision, the affine
    solve and resampling, polygon rasterisation) are fields of the record
    [externals]; the NumPy/OpenCV operations whose behaviour the program's own
    logic depends on (slicing, broadcasting, histogram, cumulative sum,
    division, casts, split/merge, LUT) are written out.

    Numbers.  Python integers are [Z] (indices and levels are [nat]).  A
    [uint8] is a [Z] in [0, 256) with the wrap-around written where the source
    casts.  Floating-point values are modelled by [float]: the two infinities,
    NaN, and finite values kept as exact rationals.  Rounding is not
    modelled; it is monotone, so it keeps a cumulative distribution
    non-decreasing, and two of its entries [a / t] and [b / t] with
    [a < b <= t < 2^53] stay different.  Coordinates handed to OpenCV are
    rationals. *)

From Stdlib Require Import ZArith QArith Qabs Qround Lia.
From stdpp Require Import base list strings.

Close Scope Q_scope.
Open Scope nat_scope.

(** ** Part I: the embedding *)

(** *** Exceptions *)

(** A Python computation either returns or raises; an exception is recorded by
    the name of its class. *)
Inductive result (A : Type) : Type :=
| Ok (a : A)
| Raise (e : string).
Arguments Ok {A} a.
Arguments Raise {A} e.

Global Instance result_ret : MRet result := fun A a => Ok a.

Global Instance result_bind : MBind result := fun A B k r =>
  match r with
  | Ok a => k a
  | Raise e => Raise e
  end.

(** Every failure of an OpenCV call surfaces in Python as [cv2.error]. *)
Definition cv2_error : string := "cv2.error".

Definition of_cv2 {A} (o : option A) : result A :=
  match o with
  | Some a => Ok a
  | None => Raise cv2_error
  end.

(** *** Floating-point values *)

Inductive float : Type :=
| Fnan
| Fninf
| Ffin (q : Q)
| Fpinf.

Global Instance float_inhabited : Inhabited float := populate Fnan.

Definition Qlt_bool (x y : Q) : bool := negb (Qle_bool y x).

(** [a < b] on floats: false as soon as one side is NaN. *)
Definition flt (a b : float) : bool :=
  match a, b with
  | Fnan, _ | _, Fnan => false
  | Fpinf, _ => false
  | _, Fninf => false
  | Fninf, _ => true
  | Ffin _, Fpinf => true
  | Ffin x, Ffin y => Qlt_bool x y
  end.

(** [a >= b] on floats. *)
Definition fge (a b : float) : bool :=
  match a, b with
  | Fnan, _ | _, Fnan => false
  | Fpinf, _ => true
  | _, Fninf => true
  | Fninf, _ => false
  | Ffin _, Fpinf => false
  | Ffin x, Ffin y => Qle_bool y x
  end.

(** NumPy's [c / float(t)] for integers [c] and [t]: division by zero yields
    an infinity or NaN (with a warning), never an exception. *)
Definition true_divide (c t : Z) : float :=
  if (t =? 0)%Z then
    (if (c =? 0)%Z then Fnan else if (0 <? c)%Z then Fpinf else Fninf)
  else if (0 <? t)%Z then Ffin (Qmake c (Z.to_pos t))
  else Ffin (Qmake (- c) (Z.to_pos (- t))).

(** *** Images *)

(** A pixel holds the three [uint8] channels of a BGR image; an image is the
    list of its rows. *)
Definition Pixel : Type := Z * Z * Z.
Abbreviation Image := (list (list Pixel)).
Abbreviation Channel := (list (list Z)).

Definition height (img : Image) : nat := length img.
Definition width (img : Image) : nat :=
  match img with
  | [] => 0
  | row :: _ => length row
  end.

Definition uint8_range (v : Z) : Prop := (0 <= v < 256)%Z.

Definition valid_pixel (p : Pixel) : Prop :=
  uint8_range p.1.1 /\ uint8_range p.1.2 /\ uint8_range p.2.

Definition valid_image (img : Image) : Prop :=
  Forall (Forall valid_pixel) img.

(** [Mat::empty()]: the array has no element. *)
Definition is_empty {A} (rows : list (list A)) : bool :=
  match concat rows with
  | [] => true
  | _ => false
  end.

(** *** [match_histograms] *)

(** [np.histogram(channel.flatten(), 256, [0, 256])] on a [uint8] channel: bin
    [k] counts the pixels of value [k]. *)
Definition histogram (flat : list Z) : list nat :=
  map (fun k => count_occ Z.eq_dec flat (Z.of_nat k)) (seq 0 256).

Fixpoint cumsum_from (acc : nat) (l : list nat) : list nat :=
  match l with
  | [] => []
  | x :: l' => (acc + x) :: cumsum_from (acc + x) l'
  end.

Definition cumsum (l : list nat) : list nat := cumsum_from 0 l.

(** [np.cumsum(hist) / float(np.sum(hist))] *)
Definition cdf (hist : list nat) : list float :=
  let total := sum_list hist in
  map (fun c => true_divide (Z.of_nat c) (Z.of_nat total)) (cumsum hist).

(** The inner loop [while r_cdf[g] < s_cdf[i] and g < 255: g += 1], for the
    value [v = s_cdf[i]].  The loop increments [g] at most 255 times, which is
    the fuel [lookup_table] gives it ([advance_exit] below shows that the loop
    has reached its exit condition when [advance] returns). *)
Fixpoint advance (r_cdf : list float) (v : float) (fuel g : nat) : nat :=
  match fuel with
  | O => g
  | S fuel' =>
      if flt (r_cdf !!! g) v && (g <? 255)
      then advance r_cdf v fuel' (S g)
      else g
  end.

(** The outer loop [for i in levels: ...; lookup_table[i] = g], threading [g]
    from one level to the next. *)
Fixpoint fill_lookup (r_cdf s_cdf : list float) (levels : list nat) (g : nat)
  : list nat :=
  match levels with
  | [] => []
  | i :: rest =>
      let g' := advance r_cdf (s_cdf !!! i) 255 g in
      g' :: fill_lookup r_cdf s_cdf rest g'
  end.

Definition lookup_table (s_cdf r_cdf : list float) : list nat :=
  fill_lookup r_cdf s_cdf (seq 0 256) 0.

(** The table derived from a source and a reference histogram. *)
Definition histogram_lookup (s_hist r_hist : list nat) : list nat :=
  lookup_table (cdf s_hist) (cdf r_hist).

(** [np.uint8(x)] on an integer. *)
Definition to_uint8 (v : Z) : Z := (v mod 256)%Z.

(** [cv2.LUT(np.uint8(s_channel), np.uint8(lookup_table))] *)
Definition LUT (s_channel : Channel) (table : list nat) : Channel :=
  map (map (fun v =>
              to_uint8 (Z.of_nat (table !!! Z.to_nat (to_uint8 v)))))
      s_channel.

Definition match_channel (s_channel r_channel : Channel) : Channel :=
  let s_hist := histogram (concat s_channel) in
  let r_hist := histogram (concat r_channel) in
  LUT s_channel (histogram_lookup s_hist r_hist).

(** [cv2.split]: the channel planes of an image; none for an empty image. *)
Definition split (img : Image) : list Channel :=
  if is_empty img then []
  else [ map (map (fun p : Pixel => p.1.1)) img;
         map (map (fun p : Pixel => p.1.2)) img;
         map (map (fun p : Pixel => p.2)) img ].

Definition shape {A} (rows : list (list A)) : list nat := map length rows.

(** [cv2.merge]: interleaves three planes of one shape; it rejects an empty
    list of planes and planes of different sizes. *)
Definition merge (planes : list Channel) : result Image :=
  match planes with
  | [b; g; r] =>
      if decide (shape b = shape g /\ shape g = shape r)
      then Ok (zip_with (fun rb rgr =>
                           zip_with (fun vb vgr => (vb, vgr.1, vgr.2))
                                    rb (zip rgr.1 rgr.2))
                        b (zip g r))
      else Raise cv2_error
  | _ => Raise cv2_error
  end.

Definition match_histograms (source reference : Image) : result Image :=
  merge (zip_with match_channel (split source) (split reference)).

(** *** NumPy slicing *)

(** A slice bound [i] against an axis of length [n]: a negative bound counts
    from the end, and every bound is clipped to [0, n]. *)
Definition slice_bound (i : Z) (n : nat) : nat :=
  Z.to_nat (if (i <? 0)%Z then Z.max (i + Z.of_nat n) 0
            else Z.min i (Z.of_nat n)).

(** [a[lo:hi]] selects the [slice_len] positions from [slice_start] on. *)
Definition slice_start (lo : Z) (n : nat) : nat := slice_bound lo n.
Definition slice_len (lo hi : Z) (n : nat) : nat :=
  slice_bound hi n - slice_bound lo n.

Definition slice {A} (lo hi : Z) (l : list A) : list A :=
  take (slice_len lo hi (length l)) (drop (slice_start lo (length l)) l).

(** [a[ylo:yhi, xlo:xhi]] *)
Definition slice2 {A} (ylo yhi xlo xhi : Z) (rows : list (list A))
  : list (list A) :=
  map (slice xlo xhi) (slice ylo yhi rows).

(** Overwrites the positions [start, start + length new) of [l]. *)
Definition set_slice {A} (start : nat) (new l : list A) : list A :=
  take start l ++ new ++ drop (start + length new) l.

(** Overwrites the block of rows [ys ...] and columns [xs ...] with [new]. *)
Definition store_region {A} (ys xs : nat) (new rows : list (list A))
  : list (list A) :=
  take ys rows
  ++ zip_with (set_slice xs) new (take (length new) (drop ys rows))
  ++ drop (ys + length new) rows.

(** Two axes combine under broadcasting, and the result can be stored back
    into the first, when they are equal or the second has length 1. *)
Definition broadcastable (r m : nat) : bool := (r =? m) || (m =? 1).

Definition tabulate2 {A} (h w : nat) (f : nat -> nat -> A) : list (list A) :=
  map (fun y => map (fun x => f y x) (seq 0 w)) (seq 0 h).

(** *** Geometry *)

Definition Point : Type := Z * Z.
(** A point of numeric, not necessarily integral, coordinates. *)
Definition FPoint : Type := Q * Q.
Definition Tri : Type := Point * Point * Point.
Definition Rect : Type := Z * Z * Z * Z.

Definition rect_x (r : Rect) : Z := r.1.1.1.
Definition rect_y (r : Rect) : Z := r.1.1.2.
Definition rect_w (r : Rect) : Z := r.1.2.
Definition rect_h (r : Rect) : Z := r.2.

Definition tri_points (t : Tri) : list Point := [t.1.1; t.1.2; t.2].

(** [cv2.boundingRect] of three integer points: the smallest upright
    rectangle of pixels that contains them. *)
Definition boundingRect (t : Tri) : Rect :=
  let '(a, b, c) := t in
  let xmin := Z.min a.1 (Z.min b.1 c.1) in
  let xmax := Z.max a.1 (Z.max b.1 c.1) in
  let ymin := Z.min a.2 (Z.min b.2 c.2) in
  let ymax := Z.max a.2 (Z.max b.2 c.2) in
  (xmin, ymin, xmax - xmin + 1, ymax - ymin + 1)%Z.

(** A triangle of the subdivision, as [getTriangleList] reports it: the six
    coordinates [t[0] .. t[5]]. *)
Definition Vec6f : Type := Q * Q * Q * Q * Q * Q.

Definition AffineMat : Type := (Q * Q * Q) * (Q * Q * Q).

(** Truncation toward zero: Python's [int] on a float, and the cast of a
    float to an integer type. *)
Definition trunc (q : Q) : Z := Z.quot (Qnum q) (Z.pos (Qden q)).

(** *** The collaborators *)

Record externals : Type := {
  (** [mp_face_mesh.process(...).multi_face_landmarks]: nothing, or for each
      face found its landmarks in normalised coordinates *)
  face_mesh : Image -> option (list (list (Q * Q)));
  (** [Subdiv2D(rect)], the insertion of the points in order, and
      [getTriangleList()]; nothing when one of the calls fails *)
  subdiv_triangles : Rect -> list FPoint -> option (list Vec6f);
  (** [cv2.getAffineTransform] *)
  getAffineTransform : Tri -> Tri -> option AffineMat;
  (** [cv2.warpAffine] with bilinear interpolation and reflected borders: the
      value of every destination pixel, by row and column *)
  warpAffine : Image -> AffineMat -> Z * Z -> option (nat -> nat -> Pixel);
  (** [cv2.fillConvexPoly] on a float image: whether the pixel at a row and
      column is painted *)
  poly_fill : Tri -> nat -> nat -> bool
}.

Section Pipeline.

Variable E : externals.

(** *** [get_landmarks] *)

Definition get_landmarks (image : Image) : option (list Point) :=
  match face_mesh E image with
  | None | Some [] => None
  | Some (face_landmarks :: _) =>
      Some (map (fun lm : Q * Q =>
                   (trunc (lm.1 * inject_Z (Z.of_nat (width image))),
                    trunc (lm.2 * inject_Z (Z.of_nat (height image)))))
                face_landmarks)
  end.

(** *** [apply_affine_transform] *)

Definition apply_affine_transform (src : Image) (src_tri dst_tri : Tri)
    (size : Z * Z) : result Image :=
  warp_mat ← of_cv2 (getAffineTransform E src_tri dst_tri);
  dst ← of_cv2 (warpAffine E src warp_mat size);
  Ok (tabulate2 (Z.to_nat size.2) (Z.to_nat size.1) dst).

(** *** [warp_triangles] *)

Definition FPixel : Type := Q * Q * Q.

Definition local (t : Tri) (r : Rect) : Tri :=
  let off (p : Point) : Point := (p.1 - rect_x r, p.2 - rect_y r)%Z in
  (off t.1.1, off t.1.2, off t.2).

(** [np.zeros((h, w, 3), dtype=np.float32)] then
    [cv2.fillConvexPoly(mask, pts, (1.0, 1.0, 1.0), 16, 0)]: a painted pixel
    holds the colour, every other pixel stays zero. *)
Definition mask_value (pts : Tri) (y x : nat) : FPixel :=
  if poly_fill E pts y x then (1%Q, 1%Q, 1%Q) else (0%Q, 0%Q, 0%Q).

Definition triangle_mask (h w : nat) (pts : Tri) : list (list FPixel) :=
  tabulate2 h w (mask_value pts).

(** One channel of [dest * (1.0 - mask) + patch * mask], and its storage into
    a [uint8] array. *)
Definition blend_value (d : Z) (m : Q) (p : Z) : Q :=
  (inject_Z d * (1 - m) + inject_Z p * m)%Q.

Definition blend (d : Pixel) (m : FPixel) (p : Pixel) : Pixel :=
  (to_uint8 (trunc (blend_value d.1.1 m.1.1 p.1.1)),
   to_uint8 (trunc (blend_value d.1.2 m.1.2 p.1.2)),
   to_uint8 (trunc (blend_value d.2 m.2 p.2))).

Definition blend_rows (region : Image) (mask : list (list FPixel))
    (patch : Image) : Image :=
  zip_with (fun drow mp => zip_with (fun d mp' => blend d mp'.1 mp'.2)
                                    drow (zip mp.1 mp.2))
           region (zip mask patch).

(** [img2] is mutated in place: the function returns its new contents. *)
Definition warp_triangles (img1 img2 : Image) (tri1 tri2 : Tri)
  : result Image :=
  let r1 := boundingRect tri1 in
  let r2 := boundingRect tri2 in
  let tri1_rect := local tri1 r1 in
  let tri2_rect := local tri2 r2 in
  let tri2_rect_int := local tri2 r2 in
  let img1_rect :=
    slice2 (rect_y r1) (rect_y r1 + rect_h r1)
           (rect_x r1) (rect_x r1 + rect_w r1) img1 in
  img2_rect ← apply_affine_transform img1_rect tri1_rect tri2_rect
                 (rect_w r2, rect_h r2);
  let h2 := Z.to_nat (rect_h r2) in
  let w2 := Z.to_nat (rect_w r2) in
  let mask := triangle_mask h2 w2 tri2_rect_int in
  let ylo := rect_y r2 in
  let yhi := (rect_y r2 + rect_h r2)%Z in
  let xlo := rect_x r2 in
  let xhi := (rect_x r2 + rect_w r2)%Z in
  let hr := slice_len ylo yhi (height img2) in
  let wr := slice_len xlo xhi (width img2) in
  if broadcastable hr h2 && broadcastable wr w2 then
    if (hr =? h2) && (wr =? w2) then
      Ok (store_region (slice_start ylo (height img2))
                       (slice_start xlo (width img2))
                       (blend_rows (slice2 ylo yhi xlo xhi img2) mask
                                   img2_rect)
                       img2)
    else Ok img2
  else Raise "ValueError".

(** *** [get_delaunay_triangles] *)

Definition pt1 (t : Vec6f) : FPoint := (t.1.1.1.1.1, t.1.1.1.1.2).
Definition pt2 (t : Vec6f) : FPoint := (t.1.1.1.2, t.1.1.2).
Definition pt3 (t : Vec6f) : FPoint := (t.1.2, t.2).

Definition Qge_bool (x y : Q) : bool := Qle_bool y x.

(** The test of lines 58-60 for one vertex. *)
Definition in_rect (rect : Rect) (p : FPoint) : bool :=
  Qge_bool p.1 (inject_Z (rect_x rect))
  && Qge_bool p.2 (inject_Z (rect_y rect))
  && Qlt_bool p.1 (inject_Z (rect_x rect + rect_w rect))
  && Qlt_bool p.2 (inject_Z (rect_y rect + rect_h rect)).

Definition all_in_rect (rect : Rect) (t : Vec6f) : bool :=
  in_rect rect (pt1 t) && in_rect rect (pt2 t) && in_rect rect (pt3 t).

(** The test of line 65. *)
Definition near (p point : FPoint) : bool :=
  Qlt_bool (Qabs (p.1 - point.1)) 1 && Qlt_bool (Qabs (p.2 - point.2)) 1.

(** The inner loop of lines 64-67: the first index whose point is near [p]. *)
Definition resolve (points : list FPoint) (p : FPoint) : option nat :=
  fst <$> list_find (fun point => near p point = true) points.

(** The list [ind] of lines 62-67. *)
Definition indices (points : list FPoint) (t : Vec6f) : list nat :=
  flat_map (fun p => match resolve points p with
                     | Some k => [k]
                     | None => []
                     end)
           [pt1 t; pt2 t; pt3 t].

(** The body of the loop of lines 52-69 for one triangle: what it appends to
    [delaunay_tri]. *)
Definition index_triple (rect : Rect) (points : list FPoint) (t : Vec6f)
  : list (nat * nat * nat) :=
  if all_in_rect rect t then
    match indices points t with
    | [a; b; c] => [(a, b, c)]
    | _ => []
    end
  else [].

Definition get_delaunay_triangles (rect : Rect) (points : list FPoint)
  : result (list (nat * nat * nat)) :=
  triangle_list ← of_cv2 (subdiv_triangles E rect points);
  Ok (flat_map (index_triple rect points) triangle_list).

(** *** [process_video] *)

(** An integer landmark handed to OpenCV as a point. *)
Definition to_float (p : Point) : FPoint := (inject_Z p.1, inject_Z p.2).

(** [landmarks[k]] *)
Definition landmark (landmarks : list Point) (k : nat) : result Point :=
  match landmarks !! k with
  | Some p => Ok p
  | None => Raise "IndexError"
  end.

Definition landmark_tri (landmarks : list Point) (tri_indices : nat * nat * nat)
  : result Tri :=
  a ← landmark landmarks tri_indices.1.1;
  b ← landmark landmarks tri_indices.1.2;
  c ← landmark landmarks tri_indices.2;
  Ok (a, b, c).

(** The loop of lines 146-149 over the triangles still to be composited. *)
Fixpoint warp_all (static_img : Image) (static_landmarks : list Point)
    (frame_landmarks : list Point) (tris : list (nat * nat * nat))
    (warped_frame : Image) : result Image :=
  match tris with
  | [] => Ok warped_frame
  | tri_indices :: rest =>
      tri1 ← landmark_tri static_landmarks tri_indices;
      tri2 ← landmark_tri frame_landmarks tri_indices;
      warped_frame' ← warp_triangles static_img warped_frame tri1 tri2;
      warp_all static_img static_landmarks frame_landmarks rest warped_frame'
  end.

(** The body of the loop of lines 135-154 for one frame read: [Ok None] when
    the frame is skipped, [Ok (Some f)] when [f] is handed to the writer. *)
Definition process_frame (static_img : Image) (static_landmarks : list Point)
    (static_delaunay_tri : list (nat * nat * nat)) (frame : Image)
  : result (option Image) :=
  match get_landmarks frame with
  | None => Ok None
  | Some frame_landmarks =>
      warped_frame ← warp_all static_img static_landmarks frame_landmarks
                       static_delaunay_tri frame;
      corrected_warped_frame ← match_histograms warped_frame frame;
      Ok (Some corrected_warped_frame)
  end.

(** What a run leaves behind: the lines printed, the resolution the writer
    was opened with and the frames written to it, in order, and whether
    [process_video] returned or an exception escaped it. *)
Record run : Type := {
  stdout : list string;
  writer_size : option (nat * nat);
  written : list Image;
  status : result unit
}.

(** The loop [while True] of lines 135-154 over the frames the capture still
    holds; [cap.read()] reports failure when none is left. *)
Fixpoint process_frames (static_img : Image) (static_landmarks : list Point)
    (static_delaunay_tri : list (nat * nat * nat)) (frames : list Image)
    (r : run) : run :=
  match frames with
  | [] => r
  | frame :: rest =>
      match process_frame static_img static_landmarks static_delaunay_tri
                          frame with
      | Ok None =>
          process_frames static_img static_landmarks static_delaunay_tri rest
            {| stdout := stdout r
                         ++ ["Landmarks not detected in frame, skipping..."];
               writer_size := writer_size r;
               written := written r;
               status := status r |}
      | Ok (Some corrected_warped_frame) =>
          process_frames static_img static_landmarks static_delaunay_tri rest
            {| stdout := stdout r;
               writer_size := writer_size r;
               written := written r ++ [corrected_warped_frame];
               status := status r |}
      | Raise e =>
          {| stdout := stdout r;
             writer_size := writer_size r;
             written := written r;
             status := Raise e |}
      end
  end.

Definition print (line : string) (r : run) : run :=
  {| stdout := stdout r ++ [line];
     writer_size := writer_size r;
     written := written r;
     status := status r |}.

Definition finish (r : run) : run :=
  match status r with
  | Ok _ => print "Video processing complete." r
  | Raise _ => r
  end.

(** [static_img] is the decoded still image; [video] is what the capture
    yields: nothing when the file cannot be opened, and otherwise the frames
    it reads before [cap.read()] first fails. *)
Definition process_video (static_img : Image) (video : option (list Image))
  : run :=
  let r0 := {| stdout := ["Loading static image..."];
               writer_size := None;
               written := [];
               status := Ok () |} in
  match get_landmarks static_img with
  | None => print "Error in detecting landmarks in static image." r0
  | Some static_landmarks =>
      let static_rect : Rect :=
        (0, 0, Z.of_nat (width static_img), Z.of_nat (height static_img))%Z in
      match get_delaunay_triangles static_rect
              (map to_float static_landmarks) with
      | Raise e =>
          {| stdout := stdout r0; writer_size := None; written := [];
             status := Raise e |}
      | Ok static_delaunay_tri =>
          let r1 := print "Opening video file..." r0 in
          match video with
          | None => print "Error opening video file." r1
          | Some [] => print "Error reading video file." r1
          | Some (first_frame :: frames) =>
              let r2 :=
                {| stdout := stdout r1 ++ ["Processing video..."];
                   writer_size :=
                     Some (width first_frame, height first_frame);
                   written := [];
                   status := Ok () |} in
              finish (process_frames static_img static_landmarks
                                     static_delaunay_tri frames r2)
          end
      end
  end.

(** The frames a run hands to the writer for the frames it reads, stated
    frame by frame: a frame without landmarks contributes nothing, a frame
    with landmarks contributes its corrected warp, and nothing follows a
    frame whose processing raises. *)
Fixpoint emitted (static_img : Image) (static_landmarks : list Point)
    (static_delaunay_tri : list (nat * nat * nat)) (frames : list Image)
  : list Image :=
  match frames with
  | [] => []
  | frame :: rest =>
      match process_frame static_img static_landmarks static_delaunay_tri
                          frame with
      | Ok None =>
          emitted static_img static_landmarks static_delaunay_tri rest
      | Ok (Some out) =>
          out :: emitted static_img static_landmarks static_delaunay_tri rest
      | Raise _ => []
      end
  end.

End Pipeline.

(** *** A stand-in for the collaborators

    Concrete collaborators on which the pipeline can be run: a detector that
    misses the face on frames whose top-left blue value is 3 and otherwise
    reports three landmarks, a subdivision that reports the triangle of the
    first three points after one triangle of its outer virtual vertices, an
    exact point-in-triangle rasteriser, and a resampler for source patches of
    a single colour (every interpolation of such a patch is that colour). *)

Definition edge (a b : Point) (y x : Z) : Z :=
  ((b.1 - a.1) * (y - a.2) - (b.2 - a.2) * (x - a.1))%Z.

Definition in_triangle (t : Tri) (y x : nat) : bool :=
  let '(a, b, c) := t in
  let d1 := edge a b (Z.of_nat y) (Z.of_nat x) in
  let d2 := edge b c (Z.of_nat y) (Z.of_nat x) in
  let d3 := edge c a (Z.of_nat y) (Z.of_nat x) in
  ((0 <=? d1) && (0 <=? d2) && (0 <=? d3))%Z
  || ((d1 <=? 0) && (d2 <=? 0) && (d3 <=? 0))%Z.

Definition outer_triangle : Vec6f :=
  (inject_Z 3000, 0%Q, 0%Q, inject_Z 3000, inject_Z (-3000), inject_Z (-3000)).

Definition vec6f_of (a b c : FPoint) : Vec6f :=
  (a.1, a.2, b.1, b.2, c.1, c.2).

Definition demo_landmarks : list (Q * Q) :=
  [(0%Q, 0%Q); (Qmake 1 2, 0%Q); (0%Q, Qmake 1 2)].

Definition demo : externals := {|
  face_mesh image :=
    match image with
    | ((b, _, _) :: _) :: _ =>
        if (b =? 3)%Z then None else Some [demo_landmarks]
    | _ => None
    end;
  subdiv_triangles rect points :=
    if forallb (in_rect rect) points then
      match points with
      | a :: b :: c :: _ => Some [outer_triangle; vec6f_of a b c]
      | _ => Some [outer_triangle]
      end
    else None;
  getAffineTransform _ _ := Some ((1%Q, 0%Q, 0%Q), (0%Q, 1%Q, 0%Q));
  warpAffine src _ _ :=
    match src with
    | (p :: _) :: _ => Some (fun _ _ => p)
    | _ => None
    end;
  poly_fill := in_triangle
|}.

(** A frame of one colour. *)
Definition solid (h w : nat) (v : Z) : Image :=
  repeat (repeat (v, v, v) w) h.

(** *** Concrete inputs *)

(** Two small channels and their histograms. *)
Definition channel_a : list Z := [5; 5; 7]%Z.
Definition channel_b : list Z := [1; 9; 9]%Z.

(** An image of a single pixel. *)
Definition one_pixel : Image := [[(5, 5, 5)%Z]].

(** An image of two pixels. *)
Definition two_pixels : Image := [[(5, 6, 7)%Z; (1, 2, 3)%Z]].

(** Three points, two of them closer than the tolerance of the index
    resolution, and the region that holds them. *)
Definition close_points : list FPoint :=
  [(1%Q, 1%Q); (Qmake 3 2, Qmake 3 2); (inject_Z 8, 1%Q)].
Definition region10 : Rect := (0, 0, 10, 10)%Z.

(** Three points on one line. *)
Definition collinear_points : list FPoint :=
  [(1%Q, 1%Q); (inject_Z 2, inject_Z 2); (inject_Z 3, inject_Z 3)].

(** Three integer points. *)
Definition corner_points : list FPoint :=
  [(0%Q, 0%Q); (inject_Z 2, 0%Q); (0%Q, inject_Z 2)].

(** *** Vocabulary of the statements *)

(** The point lies inside the rectangle (right and bottom edges excluded). *)
Definition inside (rect : Rect) (p : FPoint) : Prop :=
  (inject_Z (rect_x rect) <= p.1)%Q
  /\ (inject_Z (rect_y rect) <= p.2)%Q
  /\ (p.1 < inject_Z (rect_x rect + rect_w rect))%Q
  /\ (p.2 < inject_Z (rect_y rect + rect_h rect))%Q.

(** [k] is the first index of [points] whose point is within the tolerance
    of [p]. *)
Definition first_near (points : list FPoint) (p : FPoint) (k : nat) : Prop :=
  exists point,
    points !! k = Some point
    /\ near p point = true
    /\ forall j q, j < k -> points !! j = Some q -> near p q = false.

Definition integral (p : FPoint) : Prop :=
  exists x y : Z, (p.1 == inject_Z x)%Q /\ (p.2 == inject_Z y)%Q.

Definition same_point (p q : FPoint) : Prop :=
  (p.1 == q.1)%Q /\ (p.2 == q.2)%Q.

(** A triangle of zero area. *)
Definition flat_tri : Tri := ((0, 0), (0, 0), (0, 0))%Z.

(** A triangle inside a 4 x 4 image, and a triangle of the same shape to the
    left of the image's left edge. *)
Definition tri_src : Tri := ((0, 0), (2, 0), (0, 2))%Z.
Definition tri_left : Tri := ((-5, 0), (-3, 0), (-5, 2))%Z.

(** The static image of the examples and a video of five frames, the third
    of which shows no face to the stand-in detector. *)
Definition static9 : Image := solid 4 4 9.
Definition five_frames : list Image :=
  [solid 4 4 1; solid 4 4 2; solid 4 4 3; solid 4 4 4; solid 4 4 5].

(** The pixel at row [y] and column [x] lies in the rectangle. *)
Definition covers (r : Rect) (y x : nat) : Prop :=
  (rect_x r <= Z.of_nat x < rect_x r + rect_w r)%Z
  /\ (rect_y r <= Z.of_nat y < rect_y r + rect_h r)%Z.

(** The pixel of an image at a row and a column. *)
Definition pixel (img : Image) (y x : nat) : option Pixel :=
  img !! y ≫= fun row => row !! x.

(** A black canvas of three rows and six columns. *)
Definition canvas36 : Image := solid 3 6 0.

(** A destination triangle inside the canvas. *)
Definition tri_in : Tri := ((1, 0), (3, 0), (1, 2))%Z.

(** Twice the signed area of a triangle. *)
Definition area2 (t : Tri) : Z :=
  let '(a, b, c) := t in
  ((b.1 - a.1) * (c.2 - a.2) - (c.1 - a.1) * (b.2 - a.2))%Z.

(** The stand-in with an affine solver that rejects triangles of zero area,
    the behaviour most favourable to a caller that expects an error there. *)
Definition strict : externals := {|
  face_mesh := face_mesh demo;
  subdiv_triangles := subdiv_triangles demo;
  getAffineTransform src_tri dst_tri :=
    if ((area2 src_tri =? 0) || (area2 dst_tri =? 0))%Z then None
    else getAffineTransform demo src_tri dst_tri;
  warpAffine := warpAffine demo;
  poly_fill := poly_fill demo
|}.

(** A run that has opened its writer for frames of one pixel. *)
Definition started : run :=
  {| stdout := []; writer_size := Some (1, 1); written := [];
     status := Ok () |}.

(** *** Vocabulary of the further properties *)

(** Every row of the image has the width of the first. *)
Definition rectangular (img : Image) : Prop :=
  Forall (fun row => length row = width img) img.

Definition blue (p : Pixel) : Z := p.1.1.
Definition green (p : Pixel) : Z := p.1.2.
Definition red (p : Pixel) : Z := p.2.

(** One channel plane of an image, as [cv2.split] returns it. *)
Definition plane (c : Pixel -> Z) (img : Image) : Channel := map (map c) img.

(** The level that matching the channel [s_channel] against the channel
    [r_channel] gives to a pixel of value [v]. *)
Definition matched_level (s_channel r_channel : Channel) (v : Z) : Z :=
  to_uint8
    (Z.of_nat
       (histogram_lookup (histogram (concat s_channel))
          (histogram (concat r_channel)) !!! Z.to_nat (to_uint8 v))).

(** The value occurs in the channel. *)
Definition occurs (ch : Channel) (v : Z) : Prop := In v (concat ch).

(** A source and a reference image of different sizes. *)
Definition small_source : Image := [[(5, 6, 7)%Z; (1, 2, 3)%Z]].
Definition small_reference : Image :=
  [[(50, 60, 70)%Z]; [(10, 20, 30)%Z]; [(10, 20, 90)%Z]].


(** ** Part II: properties *)

Lemma map_fmap {A B} (f : A -> B) (l : list A) : map f l = f <$> l.
Proof. reflexivity. Qed.

(** *** Order on floating-point values *)

Lemma Qlt_bool_iff (x y : Q) : Qlt_bool x y = true <-> (x < y)%Q.
Proof.
  unfold Qlt_bool. rewrite negb_true_iff, <- not_true_iff_false, Qle_bool_iff.
  split; [apply Qnot_le_lt | apply Qlt_not_le].
Qed.

Lemma flt_fin (x y : Q) : flt (Ffin x) (Ffin y) = true <-> (x < y)%Q.
Proof. apply Qlt_bool_iff. Qed.

Lemma fge_fin (x y : Q) : fge (Ffin x) (Ffin y) = true <-> (y <= x)%Q.
Proof. apply Qle_bool_iff. Qed.

Lemma flt_fge_fin (x y : Q) : flt (Ffin x) (Ffin y) = negb (fge (Ffin x) (Ffin y)).
Proof. reflexivity. Qed.

(** *** The scan of the reference distribution *)

Lemma advance_ge r v fuel g : g <= advance r v fuel g.
Proof.
  revert g. induction fuel as [|fuel IH]; intros g; simpl; [lia|].
  destruct (flt (r !!! g) v && (g <? 255)); [|lia].
  specialize (IH (S g)). lia.
Qed.

Lemma advance_le r v fuel g : g <= 255 -> advance r v fuel g <= 255.
Proof.
  revert g. induction fuel as [|fuel IH]; intros g Hg; simpl; [lia|].
  destruct (flt (r !!! g) v && (g <? 255)) eqn:Hc; [|lia].
  apply andb_true_iff in Hc as [_ Hlt]. apply Nat.ltb_lt in Hlt.
  apply IH. lia.
Qed.

(** Every level the scan steps over lies strictly below the target value. *)
Lemma advance_below r v fuel g k :
  g <= k < advance r v fuel g -> flt (r !!! k) v = true.
Proof.
  revert g. induction fuel as [|fuel IH]; intros g Hk; simpl in Hk; [lia|].
  destruct (flt (r !!! g) v && (g <? 255)) eqn:Hc; [|lia].
  apply andb_true_iff in Hc as [Hflt _].
  destruct (decide (k = g)) as [->|Hne]; [done|].
  apply (IH (S g)). lia.
Qed.

(** With the fuel [lookup_table] provides, [advance] stops only where the
    [while] loop of the source stops: where its condition is false. *)
Lemma advance_exit r v fuel g :
  255 <= fuel + g ->
  flt (r !!! advance r v fuel g) v && (advance r v fuel g <? 255) = false.
Proof.
  revert g. induction fuel as [|fuel IH]; intros g Hf; simpl.
  - apply andb_false_iff. right. apply Nat.ltb_ge. lia.
  - destruct (flt (r !!! g) v && (g <? 255)) eqn:Hc; [|done].
    apply IH. lia.
Qed.

(** *** The table, level by level *)

#[local] Arguments advance : simpl never.

Lemma length_fill_lookup r s levels g :
  length (fill_lookup r s levels g) = length levels.
Proof.
  revert g. induction levels as [|i rest IH]; intros g; simpl; [done|].
  by rewrite IH.
Qed.

(** The entry written for a level is the result of the scan started from the
    entry written for the level before it. *)
Lemma fill_lookup_step r s levels g n lvl :
  levels !! n = Some lvl ->
  fill_lookup r s levels g !! n =
    Some (advance r (s !!! lvl) 255
            (match n with
             | O => g
             | S n' => fill_lookup r s levels g !!! n'
             end)).
Proof.
  revert g n. induction levels as [|i rest IH]; intros g n Hn; [done|].
  destruct n as [|n]; simpl in *.
  - by inversion Hn.
  - rewrite (IH _ _ Hn). destruct n as [|n]; [done|].
    reflexivity.
Qed.

Lemma length_lookup_table s r : length (lookup_table s r) = 256.
Proof. unfold lookup_table. by rewrite length_fill_lookup, length_seq. Qed.

Lemma lookup_table_step s r i :
  i < 256 ->
  lookup_table s r !! i =
    Some (advance r (s !!! i) 255
            (match i with
             | O => 0
             | S i' => lookup_table s r !!! i'
             end)).
Proof.
  intros Hi. unfold lookup_table. apply fill_lookup_step.
  by rewrite lookup_seq_lt.
Qed.

Lemma fill_lookup_mono r s levels g i j x y :
  i <= j ->
  fill_lookup r s levels g !! i = Some x ->
  fill_lookup r s levels g !! j = Some y ->
  g <= x /\ x <= y.
Proof.
  revert g i j x y.
  induction levels as [|l rest IH]; intros g i j x y Hij Hx Hy; [done|].
  simpl in Hx, Hy. pose proof (advance_ge r (s !!! l) 255 g) as Hg.
  destruct i as [|i]; destruct j as [|j]; simpl in *; simplify_eq; try lia.
  - destruct (IH _ j j y y ltac:(lia) Hy Hy). lia.
  - destruct (IH _ i j x y ltac:(lia) Hx Hy). lia.
Qed.

(** *** Cumulative distributions *)

Lemma length_cumsum_from acc l : length (cumsum_from acc l) = length l.
Proof.
  revert acc. induction l as [|x l IH]; intros acc; simpl; [done|].
  by rewrite IH.
Qed.

Lemma cumsum_from_lookup acc l i :
  i < length l ->
  cumsum_from acc l !! i = Some (acc + sum_list (take (S i) l)).
Proof.
  revert acc i. induction l as [|x l IH]; intros acc i Hi; simpl in Hi; [lia|].
  destruct i as [|i]; simpl.
  - f_equal. lia.
  - rewrite IH by lia. f_equal. simpl. lia.
Qed.

Lemma sum_take_mono (l : list nat) i j :
  i <= j -> sum_list (take i l) <= sum_list (take j l).
Proof.
  intros Hij. replace j with (i + (j - i)) by lia.
  rewrite <- take_take_drop, sum_list_with_app. lia.
Qed.

Lemma sum_take_S (l : list nat) i x :
  l !! i = Some x -> sum_list (take (S i) l) = sum_list (take i l) + x.
Proof.
  intros Hx. rewrite (take_S_r _ _ _ Hx), sum_list_with_app. simpl.
  unfold id. lia.
Qed.

Lemma sum_take_le_total (l : list nat) i : sum_list (take i l) <= sum_list l.
Proof.
  rewrite <- (take_drop i l) at 2. rewrite sum_list_with_app. lia.
Qed.

Lemma length_cdf hist : length (cdf hist) = length hist.
Proof. unfold cdf, cumsum. by rewrite length_map, length_cumsum_from. Qed.

(** For a histogram that counts at least one pixel every entry of the
    distribution is a finite fraction of the total. *)
Lemma cdf_lookup hist i :
  0 < sum_list hist ->
  i < length hist ->
  cdf hist !!! i =
    Ffin (Qmake (Z.of_nat (sum_list (take (S i) hist)))
                (Z.to_pos (Z.of_nat (sum_list hist)))).
Proof.
  intros Ht Hi. apply list_lookup_total_correct.
  unfold cdf, cumsum. rewrite map_fmap, list_lookup_fmap.
  rewrite cumsum_from_lookup by done. simpl. f_equal.
  unfold true_divide.
  destruct (Z.eqb_spec (Z.of_nat (sum_list hist)) 0) as [Hz|_]; [lia|].
  destruct (Z.ltb_spec 0 (Z.of_nat (sum_list hist))) as [_|Hz]; [done|lia].
Qed.

Lemma Qmake_lt (a b : Z) (p : positive) : (Qmake a p < Qmake b p)%Q <-> (a < b)%Z.
Proof.
  unfold Qlt. simpl. split; intros H.
  - apply Z.mul_lt_mono_pos_r in H; [done|lia].
  - apply Z.mul_lt_mono_pos_r; [lia|done].
Qed.

Lemma Qmake_le (a b : Z) (p : positive) : (Qmake a p <= Qmake b p)%Q <-> (a <= b)%Z.
Proof.
  unfold Qle. simpl. split; intros H.
  - apply Z.mul_le_mono_pos_r in H; [done|lia].
  - apply Z.mul_le_mono_pos_r; [lia|done].
Qed.

(** The distribution is non-decreasing ... *)
Lemma cdf_mono hist i j :
  0 < sum_list hist -> i <= j -> j < length hist ->
  fge (cdf hist !!! j) (cdf hist !!! i) = true.
Proof.
  intros Ht Hij Hj. rewrite !cdf_lookup by lia.
  apply fge_fin, Qmake_le. apply inj_le, sum_take_mono. lia.
Qed.

(** ... and increases strictly at every level that occurs. *)
Lemma cdf_strict hist i v :
  0 < sum_list hist -> i < v -> v < length hist -> 0 < hist !!! v ->
  flt (cdf hist !!! i) (cdf hist !!! v) = true.
Proof.
  intros Ht Hiv Hv Hpos. rewrite !cdf_lookup by lia.
  apply flt_fin, Qmake_lt. apply inj_lt.
  destruct (lookup_lt_is_Some_2 hist v Hv) as [x Hx].
  rewrite (list_lookup_total_correct _ _ _ Hx) in Hpos.
  rewrite (sum_take_S _ _ _ Hx).
  pose proof (sum_take_mono hist (S i) v ltac:(lia)). lia.
Qed.

(** A value strictly below [b] is strictly below everything at least [b]. *)
Lemma flt_fge_trans a b c :
  flt a b = true -> fge c b = true -> flt a c = true.
Proof.
  destruct a as [| |x|], b as [| |y|], c as [| |z|]; simpl; try done.
  rewrite !Qlt_bool_iff, Qle_bool_iff. intros H1 H2.
  eapply Qlt_le_trans; eauto.
Qed.

Lemma flt_irrefl a : flt a a = false.
Proof.
  destruct a as [| |x|]; simpl; try done.
  apply not_true_iff_false. rewrite Qlt_bool_iff. apply Qlt_irrefl.
Qed.

Lemma flt_not_fge a b : flt a b = true -> fge a b = false.
Proof.
  destruct a as [| |x|], b as [| |y|]; simpl; try done.
  unfold Qlt_bool. by intros ->%negb_true_iff.
Qed.

(** *** The lookup table *)

Lemma lookup_table_le_255 s r i g :
  lookup_table s r !! i = Some g -> g <= 255.
Proof.
  revert g. induction i as [|i IH]; intros g Hg.
  - rewrite lookup_table_step in Hg by lia. simplify_eq.
    apply advance_le. lia.
  - pose proof (lookup_lt_Some _ _ _ Hg) as Hi.
    rewrite length_lookup_table in Hi.
    rewrite lookup_table_step in Hg by lia. simplify_eq.
    apply advance_le.
    destruct (lookup_lt_is_Some_2 (lookup_table s r) i) as [g' Hg'];
      [rewrite length_lookup_table; lia|].
    rewrite (list_lookup_total_correct _ _ _ Hg'). by apply IH.
Qed.

Lemma lookup_table_exit s r i g :
  lookup_table s r !! i = Some g ->
  flt (r !!! g) (s !!! i) && (g <? 255) = false.
Proof.
  intros Hg. pose proof (lookup_lt_Some _ _ _ Hg) as Hi.
  rewrite length_lookup_table in Hi.
  rewrite lookup_table_step in Hg by lia. simplify_eq.
  apply advance_exit. lia.
Qed.

(** When the source distribution is non-decreasing, every reference level
    below the entry of level [i] lies strictly below the source value. *)
Lemma lookup_table_below s r :
  (forall i j, i <= j -> j < 256 -> fge (s !!! j) (s !!! i) = true) ->
  forall i g k,
    lookup_table s r !! i = Some g -> k < g ->
    flt (r !!! k) (s !!! i) = true.
Proof.
  intros Hs. induction i as [|i IH]; intros g k Hg Hk.
  - rewrite lookup_table_step in Hg by lia. simplify_eq.
    apply (advance_below _ _ 255 0). lia.
  - pose proof (lookup_lt_Some _ _ _ Hg) as Hi.
    rewrite length_lookup_table in Hi.
    rewrite lookup_table_step in Hg by lia. simplify_eq.
    destruct (lookup_lt_is_Some_2 (lookup_table s r) i) as [g' Hg'];
      [rewrite length_lookup_table; lia|].
    rewrite (list_lookup_total_correct _ _ _ Hg') in Hk.
    destruct (decide (k < g')) as [Hlt|Hge].
    + eapply flt_fge_trans; [by eapply IH|]. apply Hs; lia.
    + apply (advance_below _ _ 255 g'). lia.
Qed.

(** C4. Histogram matching monotonicity: for every pair of source and
    reference channel histograms the derived lookup table is non-decreasing
    in the source intensity: for all levels [i <= j] the entry of [i] is at
    most the entry of [j]. *)
Theorem histogram_lookup_monotone (s_hist r_hist : list nat) (i j : nat) :
  i <= j -> j < 256 ->
  exists x y,
    histogram_lookup s_hist r_hist !! i = Some x
    /\ histogram_lookup s_hist r_hist !! j = Some y
    /\ x <= y.
Proof.
  intros Hij Hj. unfold histogram_lookup.
  destruct (lookup_lt_is_Some_2 (lookup_table (cdf s_hist) (cdf r_hist)) i)
    as [x Hx]; [rewrite length_lookup_table; lia|].
  destruct (lookup_lt_is_Some_2 (lookup_table (cdf s_hist) (cdf r_hist)) j)
    as [y Hy]; [rewrite length_lookup_table; lia|].
  exists x, y. split; [done|]. split; [done|].
  unfold lookup_table in Hx, Hy.
  by destruct (fill_lookup_mono _ _ _ _ _ _ _ _ Hij Hx Hy).
Qed.

(** C3. Histogram lookup-table construction: for every pair of channel
    histograms (256 bins each, of channels that hold at least one pixel) and
    every source level [i] in 0..255, the table maps [i] to the smallest
    reference level [g] whose cumulative value is at least the source's
    cumulative value at [i], to 255 when no level qualifies, and the scan for
    level [i] resumes from the entry found for level [i - 1]. *)
Theorem histogram_lookup_least (s_hist r_hist : list nat) (i : nat) :
  length s_hist = 256 -> length r_hist = 256 ->
  0 < sum_list s_hist -> 0 < sum_list r_hist ->
  i < 256 ->
  exists g,
    histogram_lookup s_hist r_hist !! i = Some g
    /\ g <= 255
    /\ (forall g', g' < g ->
          fge (cdf r_hist !!! g') (cdf s_hist !!! i) = false)
    /\ (fge (cdf r_hist !!! g) (cdf s_hist !!! i) = true
        \/ (g = 255
            /\ forall g', g' <= 255 ->
                 fge (cdf r_hist !!! g') (cdf s_hist !!! i) = false))
    /\ g = advance (cdf r_hist) (cdf s_hist !!! i) 255
             (match i with
              | O => 0
              | S i' => histogram_lookup s_hist r_hist !!! i'
              end).
Proof.
  intros Hls Hlr Hts Htr Hi. unfold histogram_lookup.
  set (s := cdf s_hist). set (r := cdf r_hist).
  destruct (lookup_lt_is_Some_2 (lookup_table s r) i) as [g Hg];
    [rewrite length_lookup_table; lia|].
  assert (Hmono : forall a b, a <= b -> b < 256 ->
                          fge (s !!! b) (s !!! a) = true).
  { intros a b Hab Hb. apply cdf_mono; [done|done|lia]. }
  pose proof (lookup_table_le_255 _ _ _ _ Hg) as Hg255.
  pose proof (lookup_table_exit _ _ _ _ Hg) as Hexit.
  assert (Hbelow : forall g', g' < g -> fge (r !!! g') (s !!! i) = false).
  { intros g' Hg'. apply flt_not_fge.
    by apply (lookup_table_below s r Hmono i g g'). }
  exists g. split; [done|]. split; [done|]. split; [done|]. split.
  - destruct (fge (r !!! g) (s !!! i)) eqn:Hfge; [by left|right].
    assert (Hflt : flt (r !!! g) (s !!! i) = true).
    { subst s r. rewrite !cdf_lookup in Hfge |- * by lia.
      by rewrite flt_fge_fin, Hfge. }
    rewrite Hflt in Hexit. simpl in Hexit. apply Nat.ltb_ge in Hexit.
    assert (g = 255) as -> by lia. split; [done|].
    intros g' Hg'. destruct (decide (g' = 255)) as [->|Hne]; [done|].
    apply Hbelow. lia.
  - rewrite lookup_table_step in Hg by done. by simplify_eq.
Qed.

(** *** Matching an image against itself *)

Lemma length_histogram flat : length (histogram flat) = 256.
Proof. unfold histogram. by rewrite length_map, length_seq. Qed.

Lemma histogram_bin flat k :
  k < 256 -> histogram flat !!! k = count_occ Z.eq_dec flat (Z.of_nat k).
Proof.
  intros Hk. apply list_lookup_total_correct. unfold histogram.
  rewrite map_fmap, list_lookup_fmap, lookup_seq_lt by done. reflexivity.
Qed.

Lemma bin_le_total (hist : list nat) v : hist !!! v <= sum_list hist.
Proof.
  destruct (hist !! v) as [x|] eqn:Hx.
  - rewrite (list_lookup_total_correct _ _ _ Hx).
    apply (sum_list_with_in x id). by eapply list_elem_of_lookup_2.
  - rewrite list_lookup_total_alt, Hx. simpl. lia.
Qed.

(** Matching a histogram against itself fixes every level that occurs. *)
Lemma histogram_lookup_self_fix hist v :
  length hist = 256 -> v < 256 -> 0 < hist !!! v ->
  histogram_lookup hist hist !! v = Some v.
Proof.
  intros Hl Hv Hpos. unfold histogram_lookup. set (c := cdf hist).
  assert (Ht : 0 < sum_list hist) by (pose proof (bin_le_total hist v); lia).
  destruct (lookup_lt_is_Some_2 (lookup_table c c) v) as [g Hg];
    [rewrite length_lookup_table; lia|].
  assert (Hmono : forall a b, a <= b -> b < 256 ->
                          fge (c !!! b) (c !!! a) = true).
  { intros a b Hab Hb. apply cdf_mono; [done|done|lia]. }
  pose proof (lookup_table_exit _ _ _ _ Hg) as Hexit.
  pose proof (lookup_table_below c c Hmono v g) as Hbelow.
  rewrite Hg. f_equal.
  destruct (Nat.lt_trichotomy g v) as [Hlt|[->|Hgt]]; [|done|].
  - assert (Hflt : flt (c !!! g) (c !!! v) = true).
    { apply cdf_strict; [done|done|lia|done]. }
    rewrite Hflt in Hexit. simpl in Hexit. apply Nat.ltb_ge in Hexit. lia.
  - specialize (Hbelow v Hg Hgt). by rewrite flt_irrefl in Hbelow.
Qed.

Lemma to_uint8_id v : uint8_range v -> to_uint8 v = v.
Proof. intros Hv. unfold to_uint8. apply Z.mod_small. exact Hv. Qed.

(** A channel matched against itself is unchanged. *)
Lemma match_channel_self (ch : Channel) :
  Forall (Forall uint8_range) ch -> match_channel ch ch = ch.
Proof.
  intros Hch. unfold match_channel, LUT.
  transitivity (map id ch); [|apply map_id].
  apply map_ext_in. intros row Hrow.
  transitivity (map id row); [|apply map_id].
  apply map_ext_in. intros v Hv. unfold id.
  assert (Hr : uint8_range v).
  { rewrite Forall_forall in Hch. specialize (Hch row).
    rewrite list_elem_of_In in Hch. specialize (Hch Hrow).
    rewrite Forall_forall in Hch. apply Hch. by apply list_elem_of_In. }
  rewrite (to_uint8_id v Hr).
  assert (Hn : Z.to_nat v < 256) by (unfold uint8_range in Hr; lia).
  rewrite (list_lookup_total_correct _ _ (Z.to_nat v)).
  - rewrite Z2Nat.id by (unfold uint8_range in Hr; lia). by apply to_uint8_id.
  - apply histogram_lookup_self_fix; [apply length_histogram|done|].
    rewrite histogram_bin by done.
    rewrite Z2Nat.id by (unfold uint8_range in Hr; lia).
    apply count_occ_In, in_concat. eauto.
Qed.

Lemma shape_map {A B} (f : A -> B) (rows : list (list A)) :
  shape (map (map f) rows) = shape rows.
Proof.
  unfold shape. rewrite map_map. apply map_ext. intros row.
  apply length_map.
Qed.

Lemma merge_row (row : list Pixel) :
  zip_with (fun vb vgr => (vb, vgr.1, vgr.2))
    (map (fun p : Pixel => p.1.1) row)
    (zip (map (fun p : Pixel => p.1.2) row) (map (fun p : Pixel => p.2) row))
  = row.
Proof.
  induction row as [|[[b g] r] row IH]; simpl; [done|]. by rewrite IH.
Qed.

(** [cv2.merge] undoes [cv2.split]. *)
Lemma merge_planes (img : Image) :
  merge [ map (map (fun p : Pixel => p.1.1)) img;
          map (map (fun p : Pixel => p.1.2)) img;
          map (map (fun p : Pixel => p.2)) img ] = Ok img.
Proof.
  unfold merge. rewrite !shape_map.
  destruct (decide (shape img = shape img /\ shape img = shape img))
    as [_|Hne]; [|by destruct Hne].
  f_equal. induction img as [|row img IH]; simpl; [done|].
  by rewrite IH, merge_row.
Qed.

Lemma Forall_plane (f : Pixel -> Z) (img : Image) :
  (forall p, valid_pixel p -> uint8_range (f p)) ->
  valid_image img -> Forall (Forall uint8_range) (map (map f) img).
Proof.
  intros Hf Himg. unfold valid_image in Himg.
  rewrite map_fmap. apply Forall_fmap. eapply Forall_impl; [exact Himg|].
  intros row Hrow. simpl. rewrite map_fmap. apply Forall_fmap.
  eapply Forall_impl; [exact Hrow|]. intros p Hp. by apply Hf.
Qed.

Lemma match_histograms_self (img : Image) :
  valid_image img -> is_empty img = false ->
  match_histograms img img = Ok img.
Proof.
  intros Hv Hne. unfold match_histograms, split. rewrite Hne. simpl.
  rewrite !match_channel_self.
  - apply merge_planes.
  - apply Forall_plane; [|done]. by intros p (_ & _ & ?).
  - apply Forall_plane; [|done]. by intros p (_ & ? & _).
  - apply Forall_plane; [|done]. by intros p (? & _ & _).
Qed.

(** C5 (amended). Histogram matching idempotence: for every non-empty image
    of [uint8] pixels, matching the image's histogram against the image
    itself returns the image unchanged; the derived lookup table of each
    channel maps every level that occurs in that channel to itself (levels
    that do not occur may be mapped elsewhere). *)
Theorem match_histograms_self_unchanged (img : Image) :
  valid_image img -> is_empty img = false ->
  match_histograms img img = Ok img
  /\ forall ch v,
       ch ∈ split img -> v ∈ concat ch ->
       histogram_lookup (histogram (concat ch)) (histogram (concat ch))
         !! Z.to_nat v = Some (Z.to_nat v).
Proof.
  intros Hv Hne. split; [by apply match_histograms_self|].
  intros ch v Hch Hin.
  assert (Hplane : Forall (Forall uint8_range) ch).
  { unfold split in Hch. rewrite Hne in Hch.
    apply elem_of_cons in Hch as [->|Hch];
      [apply Forall_plane; [|done]; by intros p (? & _ & _)|].
    apply elem_of_cons in Hch as [->|Hch];
      [apply Forall_plane; [|done]; by intros p (_ & ? & _)|].
    apply elem_of_cons in Hch as [->|Hch];
      [apply Forall_plane; [|done]; by intros p (_ & _ & ?)|].
    by apply elem_of_nil in Hch. }
  assert (Hr : uint8_range v).
  { apply list_elem_of_In, in_concat in Hin as (row & Hrow & Hin).
    rewrite Forall_forall in Hplane.
    apply list_elem_of_In, Hplane in Hrow.
    rewrite Forall_forall in Hrow. apply Hrow. by apply list_elem_of_In. }
  assert (Hn : Z.to_nat v < 256) by (unfold uint8_range in Hr; lia).
  apply histogram_lookup_self_fix; [apply length_histogram|done|].
  rewrite histogram_bin by done.
  rewrite Z2Nat.id by (unfold uint8_range in Hr; lia).
  by apply count_occ_In, list_elem_of_In.
Qed.

Lemma match_histograms_self_unchanged_witness :
  valid_image two_pixels /\ is_empty two_pixels = false
  /\ match_histograms two_pixels two_pixels = Ok two_pixels
  /\ forall ch v,
       ch ∈ split two_pixels -> v ∈ concat ch ->
       histogram_lookup (histogram (concat ch)) (histogram (concat ch))
         !! Z.to_nat v = Some (Z.to_nat v).
Proof.
  assert (Hv : valid_image two_pixels).
  { repeat constructor; unfold uint8_range; simpl; lia. }
  split; [exact Hv|]. split; [reflexivity|].
  exact (match_histograms_self_unchanged two_pixels Hv eq_refl).
Defined.

(** C5, as stated, fails: matching the one-pixel image against itself leaves
    it unchanged, but the table derived for its blue channel is not the
    identity: level 1, absent from the image, is mapped to 0. *)
Lemma lookup_table_self_not_identity :
  match_histograms one_pixel one_pixel = Ok one_pixel
  /\ [[5%Z]] ∈ split one_pixel
  /\ histogram_lookup (histogram (concat [[5%Z]]))
       (histogram (concat [[5%Z]])) !! 1 = Some 0
  /\ seq 0 256 !! 1 = Some 1.
Proof.
  split; [vm_compute; reflexivity|]. split; [vm_compute; left|].
  split; vm_compute; reflexivity.
Qed.

Lemma histogram_lookup_monotone_witness :
  3 <= 200 /\ 200 < 256
  /\ exists x y,
       histogram_lookup (histogram channel_a) (histogram channel_b) !! 3
         = Some x
       /\ histogram_lookup (histogram channel_a) (histogram channel_b) !! 200
         = Some y
       /\ x <= y.
Proof.
  split; [lia|]. split; [lia|].
  apply (histogram_lookup_monotone (histogram channel_a)
           (histogram channel_b) 3 200); lia.
Defined.

Lemma histogram_lookup_least_witness :
  length (histogram channel_a) = 256 /\ length (histogram channel_b) = 256
  /\ 0 < sum_list (histogram channel_a) /\ 0 < sum_list (histogram channel_b)
  /\ 6 < 256
  /\ exists g,
       histogram_lookup (histogram channel_a) (histogram channel_b) !! 6
         = Some g
       /\ g <= 255
       /\ (forall g', g' < g ->
             fge (cdf (histogram channel_b) !!! g')
                 (cdf (histogram channel_a) !!! 6) = false)
       /\ (fge (cdf (histogram channel_b) !!! g)
               (cdf (histogram channel_a) !!! 6) = true
           \/ (g = 255
               /\ forall g', g' <= 255 ->
                    fge (cdf (histogram channel_b) !!! g')
                        (cdf (histogram channel_a) !!! 6) = false))
       /\ g = advance (cdf (histogram channel_b))
                (cdf (histogram channel_a) !!! 6) 255
                (histogram_lookup (histogram channel_a)
                   (histogram channel_b) !!! 5).
Proof.
  assert (Ha : 0 < sum_list (histogram channel_a)) by (vm_compute; lia).
  assert (Hb : 0 < sum_list (histogram channel_b)) by (vm_compute; lia).
  split; [reflexivity|]. split; [reflexivity|].
  split; [exact Ha|]. split; [exact Hb|]. split; [lia|].
  exact (histogram_lookup_least (histogram channel_a) (histogram channel_b) 6
           eq_refl eq_refl Ha Hb ltac:(lia)).
Defined.

(** *** The triangulation builder *)

Lemma in_rect_inside rect p : in_rect rect p = true <-> inside rect p.
Proof.
  unfold in_rect, inside, Qge_bool.
  rewrite !andb_true_iff, !Qle_bool_iff, !Qlt_bool_iff. tauto.
Qed.

Lemma all_in_rect_inside rect t :
  all_in_rect rect t = true
  <-> inside rect (pt1 t) /\ inside rect (pt2 t) /\ inside rect (pt3 t).
Proof.
  unfold all_in_rect. rewrite !andb_true_iff, !in_rect_inside. tauto.
Qed.

Lemma resolve_first_near points p k :
  resolve points p = Some k <-> first_near points p k.
Proof.
  unfold resolve, first_near. split.
  - intros H. apply fmap_Some in H as ([k' point] & Hfind & ->).
    apply list_find_Some in Hfind as (Hk & Hnear & Hfirst).
    exists point. split; [done|]. split; [done|].
    intros j q Hj Hq. specialize (Hfirst j q Hq Hj).
    by apply not_true_is_false.
  - intros (point & Hk & Hnear & Hfirst).
    apply fmap_Some. exists (k, point). split; [|done].
    apply list_find_Some. split; [done|]. split; [done|].
    intros j q Hq Hj. rewrite (Hfirst j q Hj Hq). done.
Qed.

(** [ind] has three entries exactly when each vertex resolves. *)
Lemma indices_three points t a b c :
  indices points t = [a; b; c]
  <-> resolve points (pt1 t) = Some a
      /\ resolve points (pt2 t) = Some b
      /\ resolve points (pt3 t) = Some c.
Proof.
  unfold indices. simpl.
  destruct (resolve points (pt1 t)), (resolve points (pt2 t)),
    (resolve points (pt3 t)); simpl; split;
    try (intros (? & ? & ?)); try intros ?; simplify_eq; done.
Qed.

Lemma index_triple_elem rect points t a b c :
  (a, b, c) ∈ index_triple rect points t
  <-> all_in_rect rect t = true /\ indices points t = [a; b; c].
Proof.
  unfold index_triple. destruct (all_in_rect rect t).
  - destruct (indices points t) as [|a' [|b' [|c' [|d l]]]];
      try (split; [intros H; by apply elem_of_nil in H
                  |intros [_ H]; discriminate]).
    rewrite list_elem_of_singleton.
    split; [intros H; by simplify_eq|intros [_ H]; by simplify_eq].
  - split; [intros H; by apply elem_of_nil in H|intros [H _]; discriminate].
Qed.

Lemma index_triple_outside rect points t :
  all_in_rect rect t = false -> index_triple rect points t = [].
Proof. unfold index_triple. by intros ->. Qed.

Lemma index_triple_unresolved rect points t :
  resolve points (pt1 t) = None \/ resolve points (pt2 t) = None
  \/ resolve points (pt3 t) = None ->
  index_triple rect points t = [].
Proof.
  intros H. unfold index_triple, indices. simpl.
  destruct (all_in_rect rect t); [|done].
  destruct (resolve points (pt1 t)), (resolve points (pt2 t)),
    (resolve points (pt3 t)); simpl; try done;
    destruct H as [?|[?|?]]; done.
Qed.

Section Triangulation.

Variable E : externals.

Lemma get_delaunay_triangles_Ok rect points tris :
  get_delaunay_triangles E rect points = Ok tris ->
  exists triangle_list,
    subdiv_triangles E rect points = Some triangle_list
    /\ tris = flat_map (index_triple rect points) triangle_list.
Proof.
  unfold get_delaunay_triangles.
  destruct (subdiv_triangles E rect points) as [tl|]; simpl; [|done].
  intros H. exists tl. split; [done|]. by simplify_eq.
Qed.

Lemma get_delaunay_triangles_Raise rect points e :
  get_delaunay_triangles E rect points = Raise e ->
  e = cv2_error /\ subdiv_triangles E rect points = None.
Proof.
  unfold get_delaunay_triangles.
  destruct (subdiv_triangles E rect points) as [tl|]; simpl; [done|].
  intros H. by simplify_eq.
Qed.

(** C7. Triangulation post-filter: every index triple returned by the
    triangulation builder comes from a triangle of the subdivision all three
    of whose vertices lie inside the bounding region; a triangle with a
    vertex outside the region contributes nothing to the result. *)
Theorem delaunay_triangles_inside rect points tris :
  get_delaunay_triangles E rect points = Ok tris ->
  exists triangle_list,
    subdiv_triangles E rect points = Some triangle_list
    /\ (forall a b c,
          (a, b, c) ∈ tris ->
          exists t,
            t ∈ triangle_list
            /\ inside rect (pt1 t) /\ inside rect (pt2 t)
            /\ inside rect (pt3 t)
            /\ indices points t = [a; b; c])
    /\ (forall t,
          t ∈ triangle_list ->
          ~ (inside rect (pt1 t) /\ inside rect (pt2 t)
             /\ inside rect (pt3 t)) ->
          index_triple rect points t = []).
Proof.
  intros H. apply get_delaunay_triangles_Ok in H as (tl & Hsub & ->).
  exists tl. split; [done|]. split.
  - intros a b c Hin.
    apply list_elem_of_In, in_flat_map in Hin as (t & Ht & Hin).
    apply list_elem_of_In, index_triple_elem in Hin as [Hrect Hind].
    apply all_in_rect_inside in Hrect as (? & ? & ?).
    exists t. by rewrite list_elem_of_In.
  - intros t _ Hout. apply index_triple_outside.
    apply not_true_is_false. by rewrite all_in_rect_inside.
Qed.

Lemma near_integral p q :
  integral p -> integral q -> near p q = true -> same_point p q.
Proof.
  intros (x & y & Hx & Hy) (u & v & Hu & Hv) Hn.
  unfold near in Hn. apply andb_true_iff in Hn as [H1 H2].
  apply Qlt_bool_iff, Qabs_Qlt_condition in H1.
  apply Qlt_bool_iff, Qabs_Qlt_condition in H2.
  rewrite Hx, Hu in H1. rewrite Hy, Hv in H2.
  unfold same_point. rewrite Hx, Hy, Hu, Hv.
  unfold Qlt, Qminus, Qplus, Qopp, inject_Z in H1, H2. simpl in H1, H2.
  assert (x = u) as -> by lia. assert (y = v) as -> by lia.
  split; reflexivity.
Qed.

Lemma same_point_trans p q r :
  same_point p q -> same_point r q -> same_point p r.
Proof.
  intros [H1 H2] [H3 H4]. split.
  - by rewrite H1, H3.
  - by rewrite H2, H4.
Qed.

(** Two vertices of integer coordinates that resolve to one index of a list
    of integer points are the same point. *)
Lemma first_near_same points p q k :
  Forall integral points -> integral p -> integral q ->
  first_near points p k -> first_near points q k -> same_point p q.
Proof.
  intros Hpts Hp Hq (x & Hx & Hpx & _) (x' & Hx' & Hqx & _).
  simplify_eq.
  assert (Hi : integral x).
  { rewrite Forall_forall in Hpts. apply Hpts.
    by eapply list_elem_of_lookup_2. }
  eapply same_point_trans; by apply near_integral.
Qed.

(** C8 (amended). Triangle indices: every triple in the builder's output
    consists of three valid indices into the point list, one per vertex of a
    triangle of the subdivision, each the first index whose point lies within
    the tolerance (less than 1.0 on both axes) of its vertex; a candidate
    triangle one of whose vertices resolves to no index is dropped.  The code
    does not compare the three indices: they are distinct when the points and
    the vertices have integer coordinates and the vertices are pairwise
    different, as for the landmarks of [process_video]. *)
Theorem delaunay_triangles_resolved rect points tris :
  get_delaunay_triangles E rect points = Ok tris ->
  exists triangle_list,
    subdiv_triangles E rect points = Some triangle_list
    /\ (forall a b c,
          (a, b, c) ∈ tris ->
          a < length points /\ b < length points /\ c < length points
          /\ exists t,
               t ∈ triangle_list
               /\ first_near points (pt1 t) a
               /\ first_near points (pt2 t) b
               /\ first_near points (pt3 t) c
               /\ (Forall integral points ->
                   integral (pt1 t) -> integral (pt2 t) ->
                   integral (pt3 t) ->
                   ~ same_point (pt1 t) (pt2 t) ->
                   ~ same_point (pt2 t) (pt3 t) ->
                   ~ same_point (pt1 t) (pt3 t) ->
                   a <> b /\ b <> c /\ a <> c))
    /\ (forall t,
          t ∈ triangle_list ->
          resolve points (pt1 t) = None \/ resolve points (pt2 t) = None
          \/ resolve points (pt3 t) = None ->
          index_triple rect points t = []).
Proof.
  intros H. apply get_delaunay_triangles_Ok in H as (tl & Hsub & ->).
  exists tl. split; [done|]. split.
  - intros a b c Hin.
    apply list_elem_of_In, in_flat_map in Hin as (t & Ht & Hin).
    apply list_elem_of_In, index_triple_elem in Hin as [_ Hind].
    apply indices_three in Hind as (Ha & Hb & Hc).
    apply resolve_first_near in Ha, Hb, Hc.
    assert (Hlen : forall p k, first_near points p k -> k < length points).
    { intros p k (x & Hx & _). by eapply lookup_lt_Some. }
    split; [by eapply Hlen|]. split; [by eapply Hlen|].
    split; [by eapply Hlen|].
    exists t. rewrite list_elem_of_In. do 4 (split; [done|]).
    intros Hpts H1 H2 H3 N12 N23 N13. repeat split; intros ->.
    + apply N12. by eapply first_near_same.
    + apply N23. by eapply first_near_same.
    + apply N13. by eapply first_near_same.
  - intros t _ Hnone. by apply index_triple_unresolved.
Qed.

(** C9 (amended). Error contract of the builder: [get_delaunay_triangles]
    raises neither [InsufficientPointsError] nor [DegenerateInputError]; its
    only failure is the [cv2.error] of the subdivision, and whenever the
    subdivision yields a triangle list (for fewer than three points and for
    collinear points too) it returns normally, with the triples that pass the
    post-filter. *)
Theorem delaunay_triangles_errors rect points :
  (forall e,
     get_delaunay_triangles E rect points = Raise e ->
     e = cv2_error /\ subdiv_triangles E rect points = None)
  /\ (forall triangle_list,
        subdiv_triangles E rect points = Some triangle_list ->
        get_delaunay_triangles E rect points
        = Ok (flat_map (index_triple rect points) triangle_list)).
Proof.
  split; [intros e; apply get_delaunay_triangles_Raise|].
  intros tl H. unfold get_delaunay_triangles. by rewrite H.
Qed.

End Triangulation.

Lemma delaunay_triangles_inside_witness :
  get_delaunay_triangles demo region10 corner_points = Ok [(0, 1, 2)]
  /\ exists triangle_list,
       subdiv_triangles demo region10 corner_points = Some triangle_list
       /\ (forall a b c,
             (a, b, c) ∈ [(0, 1, 2)] ->
             exists t,
               t ∈ triangle_list
               /\ inside region10 (pt1 t) /\ inside region10 (pt2 t)
               /\ inside region10 (pt3 t)
               /\ indices corner_points t = [a; b; c])
       /\ (forall t,
             t ∈ triangle_list ->
             ~ (inside region10 (pt1 t) /\ inside region10 (pt2 t)
                /\ inside region10 (pt3 t)) ->
             index_triple region10 corner_points t = []).
Proof.
  assert (H : get_delaunay_triangles demo region10 corner_points
              = Ok [(0, 1, 2)]) by (vm_compute; reflexivity).
  split; [exact H|].
  exact (delaunay_triangles_inside demo region10 corner_points _ H).
Defined.

Lemma delaunay_triangles_resolved_witness :
  get_delaunay_triangles demo region10 corner_points = Ok [(0, 1, 2)]
  /\ exists triangle_list,
       subdiv_triangles demo region10 corner_points = Some triangle_list
       /\ (forall a b c,
             (a, b, c) ∈ [(0, 1, 2)] ->
             a < length corner_points /\ b < length corner_points
             /\ c < length corner_points
             /\ exists t,
                  t ∈ triangle_list
                  /\ first_near corner_points (pt1 t) a
                  /\ first_near corner_points (pt2 t) b
                  /\ first_near corner_points (pt3 t) c
                  /\ (Forall integral corner_points ->
                      integral (pt1 t) -> integral (pt2 t) ->
                      integral (pt3 t) ->
                      ~ same_point (pt1 t) (pt2 t) ->
                      ~ same_point (pt2 t) (pt3 t) ->
                      ~ same_point (pt1 t) (pt3 t) ->
                      a <> b /\ b <> c /\ a <> c))
       /\ (forall t,
             t ∈ triangle_list ->
             resolve corner_points (pt1 t) = None
             \/ resolve corner_points (pt2 t) = None
             \/ resolve corner_points (pt3 t) = None ->
             index_triple region10 corner_points t = []).
Proof.
  assert (H : get_delaunay_triangles demo region10 corner_points
              = Ok [(0, 1, 2)]) by (vm_compute; reflexivity).
  split; [exact H|].
  exact (delaunay_triangles_resolved demo region10 corner_points _ H).
Defined.

(** C8, as stated, fails: for three points inside the region, two of which
    are closer to each other than the tolerance, the triangle of the three
    points comes out with a repeated index. *)
Lemma delaunay_triangles_repeated_index :
  Forall (fun p => in_rect region10 p = true) close_points
  /\ subdiv_triangles demo region10 close_points
     = Some [outer_triangle;
             (1%Q, 1%Q, Qmake 3 2, Qmake 3 2, inject_Z 8, 1%Q)]
  /\ get_delaunay_triangles demo region10 close_points = Ok [(0, 0, 2)].
Proof.
  split; [repeat constructor|]. split; vm_compute; reflexivity.
Qed.

(** C9, as stated, fails: on the empty point list the builder returns
    normally; no behaviour of the subdivision makes it fail with
    [InsufficientPointsError] there, nor with [DegenerateInputError] on
    three collinear points. *)
Lemma delaunay_triangles_no_insufficient_points_error :
  get_delaunay_triangles demo region10 [] = Ok []
  /\ (forall E : externals,
        get_delaunay_triangles E region10 []
        <> Raise "InsufficientPointsError")
  /\ (forall E : externals,
        get_delaunay_triangles E region10 collinear_points
        <> Raise "DegenerateInputError").
Proof.
  split; [vm_compute; reflexivity|].
  split; intros E H;
    destruct (get_delaunay_triangles_Raise E _ _ _ H) as [Hname _];
    discriminate Hname.
Qed.

(** *** The affine warp unit and the run over the video *)

Section Video.

Variable E : externals.

(** The warp unit has no failure of its own: it fails only where one of the
    two OpenCV calls fails, and then with [cv2.error]. *)
Lemma apply_affine_transform_Raise src src_tri dst_tri size e :
  apply_affine_transform E src src_tri dst_tri size = Raise e ->
  e = cv2_error.
Proof.
  unfold apply_affine_transform.
  destruct (getAffineTransform E src_tri dst_tri) as [m|]; simpl;
    [|intros H; by simplify_eq].
  destruct (warpAffine E src m size) as [dst|]; simpl; [done|].
  intros H. by simplify_eq.
Qed.

Lemma apply_affine_transform_Ok src src_tri dst_tri size m dst :
  getAffineTransform E src_tri dst_tri = Some m ->
  warpAffine E src m size = Some dst ->
  apply_affine_transform E src src_tri dst_tri size
  = Ok (tabulate2 (Z.to_nat size.2) (Z.to_nat size.1) dst).
Proof.
  intros Hm Hd. unfold apply_affine_transform. rewrite Hm. simpl.
  by rewrite Hd.
Qed.

(** An exception raised while a triangle is composited leaves the loop over
    the triangles at once. *)
Lemma warp_all_Raise static_img static_landmarks frame_landmarks
    before tri_indices after canvas canvas' tri1 tri2 e :
  warp_all E static_img static_landmarks frame_landmarks before canvas
  = Ok canvas' ->
  landmark_tri static_landmarks tri_indices = Ok tri1 ->
  landmark_tri frame_landmarks tri_indices = Ok tri2 ->
  warp_triangles E static_img canvas' tri1 tri2 = Raise e ->
  warp_all E static_img static_landmarks frame_landmarks
    (before ++ tri_indices :: after) canvas = Raise e.
Proof.
  revert canvas. induction before as [|t before IH]; intros canvas; simpl.
  - intros Hc H1 H2 Hw. simplify_eq. rewrite H1. simpl. rewrite H2. simpl.
    by rewrite Hw.
  - destruct (landmark_tri static_landmarks t) as [t1|]; simpl; [|done].
    destruct (landmark_tri frame_landmarks t) as [t2|]; simpl; [|done].
    destruct (warp_triangles E static_img canvas t1 t2) as [c|]; simpl;
      [|done].
    apply IH.
Qed.

Lemma process_frame_Raise static_img static_landmarks tris frame
    frame_landmarks e :
  get_landmarks E frame = Some frame_landmarks ->
  warp_all E static_img static_landmarks frame_landmarks tris frame
  = Raise e ->
  process_frame E static_img static_landmarks tris frame = Raise e.
Proof. intros Hl Hw. unfold process_frame. rewrite Hl, Hw. done. Qed.

Lemma process_frames_Raise static_img static_landmarks tris frame rest r e :
  process_frame E static_img static_landmarks tris frame = Raise e ->
  process_frames E static_img static_landmarks tris (frame :: rest) r
  = {| stdout := stdout r; writer_size := writer_size r;
       written := written r; status := Raise e |}.
Proof. intros H. simpl. by rewrite H. Qed.

Lemma process_frames_written static_img static_landmarks tris frames r :
  written (process_frames E static_img static_landmarks tris frames r)
  = written r ++ emitted E static_img static_landmarks tris frames.
Proof.
  revert r. induction frames as [|frame rest IH]; intros r; simpl.
  - by rewrite app_nil_r.
  - destruct (process_frame E static_img static_landmarks tris frame)
      as [[out|]|e]; simpl.
    + rewrite IH. simpl. by rewrite <- app_assoc.
    + by rewrite IH.
    + by rewrite app_nil_r.
Qed.

Lemma process_frames_writer_size static_img static_landmarks tris frames r :
  writer_size (process_frames E static_img static_landmarks tris frames r)
  = writer_size r.
Proof.
  revert r. induction frames as [|frame rest IH]; intros r; simpl; [done|].
  destruct (process_frame E static_img static_landmarks tris frame)
    as [[out|]|e]; simpl; [by rewrite IH..|done].
Qed.

Lemma written_finish r : written (finish r) = written r.
Proof. unfold finish. by destruct (status r). Qed.

Lemma writer_size_finish r : writer_size (finish r) = writer_size r.
Proof. unfold finish. by destruct (status r). Qed.

(** A frame without landmarks costs one line of output and nothing else:
    the loop goes on with the next frame. *)
Lemma process_frames_skip static_img static_landmarks tris frame rest r :
  get_landmarks E frame = None ->
  process_frames E static_img static_landmarks tris (frame :: rest) r
  = process_frames E static_img static_landmarks tris rest
      (print "Landmarks not detected in frame, skipping..." r).
Proof. intros H. simpl. unfold process_frame. by rewrite H. Qed.

Lemma emitted_skip static_img static_landmarks tris frame rest :
  get_landmarks E frame = None ->
  emitted E static_img static_landmarks tris (frame :: rest)
  = emitted E static_img static_landmarks tris rest.
Proof. intros H. simpl. unfold process_frame. by rewrite H. Qed.

Lemma emitted_keep static_img static_landmarks tris frame rest out :
  process_frame E static_img static_landmarks tris frame = Ok (Some out) ->
  emitted E static_img static_landmarks tris (frame :: rest)
  = out :: emitted E static_img static_landmarks tris rest.
Proof. intros H. simpl. by rewrite H. Qed.

Lemma process_video_frames static_img static_landmarks tris first rest :
  get_landmarks E static_img = Some static_landmarks ->
  get_delaunay_triangles E
    (0, 0, Z.of_nat (width static_img), Z.of_nat (height static_img))%Z
    (map to_float static_landmarks) = Ok tris ->
  process_video E static_img (Some (first :: rest))
  = finish (process_frames E static_img static_landmarks tris rest
              {| stdout := ["Loading static image..."; "Opening video file...";
                            "Processing video..."];
                 writer_size := Some (width first, height first);
                 written := [];
                 status := Ok () |}).
Proof. intros Hl Ht. unfold process_video. rewrite Hl, Ht. reflexivity. Qed.

(** C2. The first frame: for every video with at least one readable frame,
    [process_video] uses the first frame only for the resolution of the
    writer; it neither warps nor corrects nor writes it, and the frames
    written are those of the loop run from the second frame on. *)
Theorem first_frame_only_sizes_writer static_img static_landmarks tris
    first rest :
  get_landmarks E static_img = Some static_landmarks ->
  get_delaunay_triangles E
    (0, 0, Z.of_nat (width static_img), Z.of_nat (height static_img))%Z
    (map to_float static_landmarks) = Ok tris ->
  writer_size (process_video E static_img (Some (first :: rest)))
  = Some (width first, height first)
  /\ written (process_video E static_img (Some (first :: rest)))
     = emitted E static_img static_landmarks tris rest
  /\ forall first',
       width first' = width first -> height first' = height first ->
       process_video E static_img (Some (first' :: rest))
       = process_video E static_img (Some (first :: rest)).
Proof.
  intros Hl Ht. rewrite (process_video_frames _ _ _ _ _ Hl Ht).
  split; [by rewrite writer_size_finish, process_frames_writer_size|].
  split; [by rewrite written_finish, process_frames_written|].
  intros first' Hw Hh.
  rewrite (process_video_frames _ _ _ first' _ Hl Ht). by rewrite Hw, Hh.
Qed.

(** C1, on the code.  Of a video of five frames whose third frame alone
    shows no landmarks, [process_video] writes three frames: the corrected
    warps of the second, fourth and fifth frame, in this order.  The third
    frame is dropped as the policy says; the first is consumed before the
    loop starts. *)
Theorem five_frames_three_written static_img static_landmarks tris
    f1 f2 f3 f4 f5 o2 o4 o5 :
  get_landmarks E static_img = Some static_landmarks ->
  get_delaunay_triangles E
    (0, 0, Z.of_nat (width static_img), Z.of_nat (height static_img))%Z
    (map to_float static_landmarks) = Ok tris ->
  get_landmarks E f3 = None ->
  process_frame E static_img static_landmarks tris f2 = Ok (Some o2) ->
  process_frame E static_img static_landmarks tris f4 = Ok (Some o4) ->
  process_frame E static_img static_landmarks tris f5 = Ok (Some o5) ->
  written (process_video E static_img (Some [f1; f2; f3; f4; f5]))
  = [o2; o4; o5].
Proof.
  intros Hl Ht H3 H2 H4 H5. rewrite (process_video_frames _ _ _ _ _ Hl Ht).
  rewrite written_finish, process_frames_written. simpl written.
  rewrite (emitted_keep _ _ _ _ _ _ H2), (emitted_skip _ _ _ _ _ H3),
    (emitted_keep _ _ _ _ _ _ H4), (emitted_keep _ _ _ _ _ _ H5).
  reflexivity.
Qed.

(** C10 (amended). Degenerate triangles: the affine warp makes no test of
    the triangles' areas and raises no [DegenerateTriangleError]: it returns
    the resampled patch whenever the two OpenCV calls return, and fails only
    with their [cv2.error].  The caller has no handler: an exception raised
    while a triangle is composited ends the loop over the triangles, the
    frame and the run; no triangle is skipped and nothing more is written. *)
Theorem warp_errors_end_the_run static_img static_landmarks tris :
  (forall src src_tri dst_tri size,
     (forall e, apply_affine_transform E src src_tri dst_tri size = Raise e
                -> e = cv2_error)
     /\ (forall m dst,
           getAffineTransform E src_tri dst_tri = Some m ->
           warpAffine E src m size = Some dst ->
           apply_affine_transform E src src_tri dst_tri size
           = Ok (tabulate2 (Z.to_nat size.2) (Z.to_nat size.1) dst)))
  /\ (forall frame frame_landmarks before tri_indices after canvas tri1 tri2
             e rest r,
        tris = before ++ tri_indices :: after ->
        get_landmarks E frame = Some frame_landmarks ->
        warp_all E static_img static_landmarks frame_landmarks before frame
        = Ok canvas ->
        landmark_tri static_landmarks tri_indices = Ok tri1 ->
        landmark_tri frame_landmarks tri_indices = Ok tri2 ->
        warp_triangles E static_img canvas tri1 tri2 = Raise e ->
        process_frames E static_img static_landmarks tris (frame :: rest) r
        = {| stdout := stdout r; writer_size := writer_size r;
             written := written r; status := Raise e |}).
Proof.
  split.
  - intros src src_tri dst_tri size. split.
    + intros e. apply apply_affine_transform_Raise.
    + apply apply_affine_transform_Ok.
  - intros frame frame_landmarks before tri_indices after canvas tri1 tri2
      e rest r -> Hl Hc H1 H2 Hw.
    apply process_frames_Raise. eapply process_frame_Raise; [done|].
    by eapply warp_all_Raise.
Qed.

End Video.

(** C10, as stated, fails: on triangles of zero area the warp unit returns a
    patch, and no behaviour of OpenCV makes it fail with
    [DegenerateTriangleError]. *)
Lemma affine_warp_no_degenerate_triangle_error :
  apply_affine_transform demo (solid 1 1 7) flat_tri flat_tri (1, 1)%Z
  = Ok (solid 1 1 7)
  /\ forall E : externals,
       apply_affine_transform E (solid 1 1 7) flat_tri flat_tri (1, 1)%Z
       <> Raise "DegenerateTriangleError".
Proof.
  split; [vm_compute; reflexivity|]. intros E H.
  apply apply_affine_transform_Raise in H. discriminate H.
Qed.

Lemma first_frame_only_sizes_writer_witness :
  get_landmarks demo static9 = Some [(0, 0); (2, 0); (0, 2)]%Z
  /\ get_delaunay_triangles demo
       (0, 0, Z.of_nat (width static9), Z.of_nat (height static9))%Z
       (map to_float [(0, 0); (2, 0); (0, 2)]%Z) = Ok [(0, 1, 2)]
  /\ writer_size (process_video demo static9 (Some five_frames))
     = Some (width (solid 4 4 1), height (solid 4 4 1))
  /\ written (process_video demo static9 (Some five_frames))
     = emitted demo static9 [(0, 0); (2, 0); (0, 2)]%Z [(0, 1, 2)]
         [solid 4 4 2; solid 4 4 3; solid 4 4 4; solid 4 4 5]
  /\ forall first',
       width first' = width (solid 4 4 1) ->
       height first' = height (solid 4 4 1) ->
       process_video demo static9
         (Some (first' :: [solid 4 4 2; solid 4 4 3; solid 4 4 4;
                           solid 4 4 5]))
       = process_video demo static9 (Some five_frames).
Proof.
  assert (Hl : get_landmarks demo static9 = Some [(0, 0); (2, 0); (0, 2)]%Z)
    by (vm_compute; reflexivity).
  assert (Ht : get_delaunay_triangles demo
                 (0, 0, Z.of_nat (width static9),
                  Z.of_nat (height static9))%Z
                 (map to_float [(0, 0); (2, 0); (0, 2)]%Z) = Ok [(0, 1, 2)])
    by (vm_compute; reflexivity).
  split; [exact Hl|]. split; [exact Ht|].
  exact (first_frame_only_sizes_writer demo static9 _ _ (solid 4 4 1)
           [solid 4 4 2; solid 4 4 3; solid 4 4 4; solid 4 4 5] Hl Ht).
Defined.

Lemma five_frames_three_written_witness :
  get_landmarks demo static9 = Some [(0, 0); (2, 0); (0, 2)]%Z
  /\ get_delaunay_triangles demo
       (0, 0, Z.of_nat (width static9), Z.of_nat (height static9))%Z
       (map to_float [(0, 0); (2, 0); (0, 2)]%Z) = Ok [(0, 1, 2)]
  /\ get_landmarks demo (solid 4 4 3) = None
  /\ process_frame demo static9 [(0, 0); (2, 0); (0, 2)]%Z [(0, 1, 2)]
       (solid 4 4 2) = Ok (Some (solid 4 4 2))
  /\ process_frame demo static9 [(0, 0); (2, 0); (0, 2)]%Z [(0, 1, 2)]
       (solid 4 4 4) = Ok (Some (solid 4 4 4))
  /\ process_frame demo static9 [(0, 0); (2, 0); (0, 2)]%Z [(0, 1, 2)]
       (solid 4 4 5) = Ok (Some (solid 4 4 5))
  /\ written (process_video demo static9 (Some five_frames))
     = [solid 4 4 2; solid 4 4 4; solid 4 4 5].
Proof.
  assert (Hl : get_landmarks demo static9 = Some [(0, 0); (2, 0); (0, 2)]%Z)
    by (vm_compute; reflexivity).
  assert (Ht : get_delaunay_triangles demo
                 (0, 0, Z.of_nat (width static9),
                  Z.of_nat (height static9))%Z
                 (map to_float [(0, 0); (2, 0); (0, 2)]%Z) = Ok [(0, 1, 2)])
    by (vm_compute; reflexivity).
  assert (H3 : get_landmarks demo (solid 4 4 3) = None)
    by (vm_compute; reflexivity).
  assert (H2 : process_frame demo static9 [(0, 0); (2, 0); (0, 2)]%Z
                 [(0, 1, 2)] (solid 4 4 2) = Ok (Some (solid 4 4 2)))
    by (vm_compute; reflexivity).
  assert (H4 : process_frame demo static9 [(0, 0); (2, 0); (0, 2)]%Z
                 [(0, 1, 2)] (solid 4 4 4) = Ok (Some (solid 4 4 4)))
    by (vm_compute; reflexivity).
  assert (H5 : process_frame demo static9 [(0, 0); (2, 0); (0, 2)]%Z
                 [(0, 1, 2)] (solid 4 4 5) = Ok (Some (solid 4 4 5)))
    by (vm_compute; reflexivity).
  do 6 (split; [assumption|]).
  exact (five_frames_three_written demo static9 _ _ (solid 4 4 1) _ _ _ _
           _ _ _ Hl Ht H3 H2 H4 H5).
Defined.

(** *** The triangle compositor *)

(** C6, on the code.  For a destination triangle that lies to the left of
    the image (negative columns) the slice bounds of the bounding rectangle
    are negative, NumPy counts them from the right edge, and the compositor
    blends the patch into columns 1..3 of the canvas: pixels strictly
    outside the bounding rectangle [-5, -2) x [0, 3) are changed. *)
Theorem warp_triangles_wraps_around :
  boundingRect tri_left = (-5, 0, 3, 3)%Z
  /\ pixel canvas36 0 1 = Some (0, 0, 0)%Z
  /\ exists img2',
       warp_triangles demo static9 canvas36 tri_src tri_left = Ok img2'
       /\ pixel img2' 0 1 = Some (9, 9, 9)%Z.
Proof.
  split; [reflexivity|]. split; [reflexivity|].
  eexists. split; [vm_compute; reflexivity|]. reflexivity.
Qed.

(** Slices and stores, position by position. *)

Lemma slice_lookup {A} (lo hi : Z) (l : list A) i :
  i < slice_len lo hi (length l) ->
  slice lo hi l !! i = l !! (slice_start lo (length l) + i).
Proof.
  intros Hi. unfold slice. by rewrite lookup_take_lt, lookup_drop.
Qed.

Lemma length_slice {A} (lo hi : Z) (l : list A) :
  slice_start lo (length l) + slice_len lo hi (length l) <= length l ->
  length (slice lo hi l) = slice_len lo hi (length l).
Proof.
  intros H. unfold slice. rewrite length_take, length_drop. lia.
Qed.

Lemma set_slice_lookup {A} (xs : nat) (new l : list A) x :
  xs + length new <= length l ->
  set_slice xs new l !! x =
    if decide (xs <= x < xs + length new) then new !! (x - xs) else l !! x.
Proof.
  intros Hb. unfold set_slice.
  assert (Hl : length (take xs l) = xs) by (rewrite length_take; lia).
  destruct (decide (x < xs)) as [Hlt|Hge].
  - rewrite lookup_app_l by lia. rewrite lookup_take_lt by done.
    case_decide; [lia|done].
  - rewrite lookup_app_r by lia. rewrite Hl.
    destruct (decide (x < xs + length new)) as [Hin|Hout].
    + rewrite lookup_app_l by lia. case_decide; [done|lia].
    + rewrite lookup_app_r by lia. rewrite lookup_drop.
      case_decide; [lia|]. f_equal. lia.
Qed.

Lemma store_region_lookup {A} (ys xs : nat) (new rows : list (list A)) y :
  ys + length new <= length rows ->
  store_region ys xs new rows !! y =
    if decide (ys <= y < ys + length new)
    then nrow ← new !! (y - ys); row ← rows !! y; Some (set_slice xs nrow row)
    else rows !! y.
Proof.
  intros Hb. unfold store_region.
  assert (Hl : length (take ys rows) = ys) by (rewrite length_take; lia).
  assert (Hz : length (zip_with (set_slice xs) new
                         (take (length new) (drop ys rows))) = length new).
  { rewrite length_zip_with, length_take, length_drop. lia. }
  destruct (decide (y < ys)) as [Hlt|Hge].
  - rewrite lookup_app_l by lia. rewrite lookup_take_lt by done.
    case_decide; [lia|done].
  - rewrite lookup_app_r by lia. rewrite Hl.
    destruct (decide (y < ys + length new)) as [Hin|Hout].
    + rewrite lookup_app_l by lia. case_decide; [|lia].
      rewrite lookup_zip_with. rewrite lookup_take_lt by lia.
      rewrite lookup_drop. replace (ys + (y - ys)) with y by lia. done.
    + rewrite lookup_app_r by lia. rewrite Hz, lookup_drop.
      case_decide; [lia|]. f_equal. lia.
Qed.

Lemma tabulate2_lookup {A} (h w : nat) (f : nat -> nat -> A) i j :
  i < h -> j < w ->
  tabulate2 h w f !! i ≫= (fun row => row !! j) = Some (f i j).
Proof.
  intros Hi Hj. unfold tabulate2.
  rewrite map_fmap, list_lookup_fmap, lookup_seq_lt by done. simpl.
  rewrite map_fmap, list_lookup_fmap, lookup_seq_lt by done. done.
Qed.

Lemma tabulate2_row {A} (h w : nat) (f : nat -> nat -> A) i row :
  tabulate2 h w f !! i = Some row -> i < h /\ length row = w.
Proof.
  unfold tabulate2. rewrite map_fmap, list_lookup_fmap.
  intros H. apply fmap_Some in H as (k & Hk & ->).
  apply lookup_seq in Hk as [-> Hi].
  split; [done|]. by rewrite length_map, length_seq.
Qed.

Lemma length_tabulate2 {A} (h w : nat) (f : nat -> nat -> A) :
  length (tabulate2 h w f) = h.
Proof. unfold tabulate2. by rewrite length_map, length_seq. Qed.

Lemma tabulate2_lookup_row {A} (h w : nat) (f : nat -> nat -> A) i :
  i < h -> tabulate2 h w f !! i = Some (map (fun x => f i x) (seq 0 w)).
Proof.
  intros Hi. unfold tabulate2.
  by rewrite map_fmap, list_lookup_fmap, lookup_seq_lt.
Qed.

Lemma length_blend_rows (region : Image) (mask : list (list FPixel))
    (patch : Image) :
  length (blend_rows region mask patch)
  = min (length region) (min (length mask) (length patch)).
Proof. unfold blend_rows. by rewrite length_zip_with, length_zip. Qed.

(** The rows the compositor stores, when the destination rectangle fits the
    image: row [i], column [j] blends the canvas pixel at the same place of
    the rectangle with the mask and the patch. *)
Lemma blend_rows_pixel (img2 : Image) (ylo yhi xlo xhi : Z) (h2 w2 : nat)
    (fm : nat -> nat -> FPixel) (dst : nat -> nat -> Pixel) i :
  Forall (fun row => length row = width img2) img2 ->
  slice_len ylo yhi (length img2) = h2 ->
  slice_len xlo xhi (width img2) = w2 ->
  slice_start ylo (length img2) + h2 <= length img2 ->
  slice_start xlo (width img2) + w2 <= width img2 ->
  i < h2 ->
  exists nrow row,
    blend_rows (slice2 ylo yhi xlo xhi img2) (tabulate2 h2 w2 fm)
      (tabulate2 h2 w2 dst) !! i = Some nrow
    /\ img2 !! (slice_start ylo (length img2) + i) = Some row
    /\ length row = width img2
    /\ length nrow = w2
    /\ forall j, j < w2 ->
         exists d,
           row !! (slice_start xlo (width img2) + j) = Some d
           /\ nrow !! j = Some (blend d (fm i j) (dst i j)).
Proof.
  intros Hrect Hh Hw Hys Hxs Hi.
  destruct (lookup_lt_is_Some_2 img2 (slice_start ylo (length img2) + i))
    as [row Hrow]; [lia|].
  assert (Hlen : length row = width img2).
  { rewrite Forall_forall in Hrect. apply Hrect.
    by eapply list_elem_of_lookup_2. }
  eexists _, row. split.
  { unfold blend_rows, slice2. rewrite lookup_zip_with.
    rewrite map_fmap, list_lookup_fmap, slice_lookup by lia.
    rewrite Hrow. simpl. rewrite lookup_zip_with.
    rewrite !tabulate2_lookup_row by done. simpl. reflexivity. }
  split; [done|]. split; [done|]. split.
  { rewrite length_zip_with, length_zip, !length_map, !length_seq.
    rewrite length_slice; rewrite Hlen; lia. }
  intros j Hj.
  destruct (lookup_lt_is_Some_2 row (slice_start xlo (width img2) + j))
    as [d Hd]; [lia|].
  exists d. split; [done|].
  rewrite lookup_zip_with, slice_lookup by (rewrite Hlen; lia).
  rewrite Hlen, Hd. simpl. rewrite lookup_zip_with.
  rewrite !map_fmap, !list_lookup_fmap, !lookup_seq_lt by done. done.
Qed.

Lemma slice_bound_nonneg (i : Z) (n : nat) :
  (0 <= i)%Z -> slice_bound i n = Nat.min (Z.to_nat i) n.
Proof.
  intros Hi. unfold slice_bound.
  destruct (Z.ltb_spec i 0) as [Hneg|_]; [lia|]. lia.
Qed.

Lemma boundingRect_size t :
  (1 <= rect_w (boundingRect t))%Z /\ (1 <= rect_h (boundingRect t))%Z.
Proof.
  destruct t as [[a b] c]. unfold boundingRect, rect_w, rect_h. simpl. lia.
Qed.

Lemma trunc_integer (q : Q) (d : Z) : (q == inject_Z d)%Q -> trunc q = d.
Proof.
  unfold Qeq, trunc. simpl. intros H. rewrite Z.mul_1_r in H. rewrite H.
  apply Z.quot_mul. lia.
Qed.

Lemma blend_unmasked (d p : Pixel) :
  valid_pixel d -> blend d (0%Q, 0%Q, 0%Q) p = d.
Proof.
  destruct d as [[d1 d2] d3], p as [[p1 p2] p3].
  intros (H1 & H2 & H3). simpl in *. unfold blend. simpl.
  assert (Hv : forall d q : Z, uint8_range d ->
            to_uint8 (trunc (blend_value d 0 q)) = d).
  { intros d q Hd. rewrite (trunc_integer _ d); [by apply to_uint8_id|].
    unfold blend_value. ring. }
  by rewrite !Hv.
Qed.

Lemma blend_masked (d p : Pixel) :
  valid_pixel p -> blend d (1%Q, 1%Q, 1%Q) p = p.
Proof.
  destruct d as [[d1 d2] d3], p as [[p1 p2] p3].
  intros (H1 & H2 & H3). simpl in *. unfold blend. simpl.
  assert (Hv : forall d q : Z, uint8_range q ->
            to_uint8 (trunc (blend_value d 1 q)) = q).
  { intros d q Hq. rewrite (trunc_integer _ q); [by apply to_uint8_id|].
    unfold blend_value. ring. }
  by rewrite !Hv.
Qed.

Section Compositor.

Variable E : externals.

Lemma apply_affine_transform_inv src src_tri dst_tri size patch :
  apply_affine_transform E src src_tri dst_tri size = Ok patch ->
  exists warp_mat dst,
    getAffineTransform E src_tri dst_tri = Some warp_mat
    /\ warpAffine E src warp_mat size = Some dst
    /\ patch = tabulate2 (Z.to_nat size.2) (Z.to_nat size.1) dst.
Proof.
  unfold apply_affine_transform.
  destruct (getAffineTransform E src_tri dst_tri) as [m|]; simpl; [|done].
  destruct (warpAffine E src m size) as [dst|] eqn:Hd; simpl; [|done].
  intros H. exists m, dst. simplify_eq. auto.
Qed.

Lemma pixel_Some (img : Image) y x d :
  pixel img y x = Some d ->
  exists row, img !! y = Some row /\ row !! x = Some d.
Proof.
  unfold pixel. destruct (img !! y) as [row|]; simpl; [|done]. eauto.
Qed.

(** Compositor locality for a destination rectangle of non-negative origin:
    when [warp_triangles] returns, every canvas pixel outside the bounding
    rectangle of the destination triangle is unchanged; a pixel inside the
    rectangle holds the stored value of [dest * (1 - mask) + patch * mask],
    and is unchanged where the mask is 0. *)
Theorem warp_triangles_local img1 img2 tri1 tri2 img2' :
  Forall (fun row => length row = width img2) img2 ->
  (0 <= rect_x (boundingRect tri2))%Z ->
  (0 <= rect_y (boundingRect tri2))%Z ->
  warp_triangles E img1 img2 tri1 tri2 = Ok img2' ->
  exists warp_mat dst,
    getAffineTransform E (local tri1 (boundingRect tri1))
      (local tri2 (boundingRect tri2)) = Some warp_mat
    /\ warpAffine E
         (slice2 (rect_y (boundingRect tri1))
            (rect_y (boundingRect tri1) + rect_h (boundingRect tri1))
            (rect_x (boundingRect tri1))
            (rect_x (boundingRect tri1) + rect_w (boundingRect tri1)) img1)
         warp_mat (rect_w (boundingRect tri2), rect_h (boundingRect tri2))
       = Some dst
    /\ forall y x d,
         pixel img2 y x = Some d ->
         (~ covers (boundingRect tri2) y x -> pixel img2' y x = Some d)
         /\ (covers (boundingRect tri2) y x ->
             pixel img2' y x
             = Some (blend d
                       (mask_value E (local tri2 (boundingRect tri2))
                          (y - Z.to_nat (rect_y (boundingRect tri2)))
                          (x - Z.to_nat (rect_x (boundingRect tri2))))
                       (dst (y - Z.to_nat (rect_y (boundingRect tri2)))
                            (x - Z.to_nat (rect_x (boundingRect tri2)))))
             /\ (poly_fill E (local tri2 (boundingRect tri2))
                   (y - Z.to_nat (rect_y (boundingRect tri2)))
                   (x - Z.to_nat (rect_x (boundingRect tri2))) = false ->
                 valid_pixel d -> pixel img2' y x = Some d)).
Proof.
  intros Hrect Hx0 Hy0 Hw. unfold warp_triangles in Hw.
  destruct (apply_affine_transform E _ _ _ _) as [patch|e] eqn:Hp;
    simpl in Hw; [|done].
  apply apply_affine_transform_inv in Hp as (m & dst & Hm & Hd & ->).
  exists m, dst. split; [done|]. split; [done|].
  destruct (boundingRect_size tri2) as [Hw1 Hh1].
  set (r2 := boundingRect tri2) in *.
  unfold triangle_mask, height in Hw. simpl in Hw.
  set (h2 := Z.to_nat (rect_h r2)) in *.
  set (w2 := Z.to_nat (rect_w r2)) in *.
  assert (Hsy : slice_start (rect_y r2) (length img2)
                = Nat.min (Z.to_nat (rect_y r2)) (length img2))
    by (by apply slice_bound_nonneg).
  assert (Hsx : slice_start (rect_x r2) (width img2)
                = Nat.min (Z.to_nat (rect_x r2)) (width img2))
    by (by apply slice_bound_nonneg).
  assert (Hly : slice_len (rect_y r2) (rect_y r2 + rect_h r2) (length img2)
                = Nat.min (Z.to_nat (rect_y r2) + h2) (length img2)
                  - Nat.min (Z.to_nat (rect_y r2)) (length img2)).
  { unfold slice_len. rewrite !slice_bound_nonneg by lia.
    subst h2. rewrite Z2Nat.inj_add by lia. done. }
  assert (Hlx : slice_len (rect_x r2) (rect_x r2 + rect_w r2) (width img2)
                = Nat.min (Z.to_nat (rect_x r2) + w2) (width img2)
                  - Nat.min (Z.to_nat (rect_x r2)) (width img2)).
  { unfold slice_len. rewrite !slice_bound_nonneg by lia.
    subst w2. rewrite Z2Nat.inj_add by lia. done. }
  assert (Hh2 : 1 <= h2) by (subst h2; lia).
  assert (Hw2 : 1 <= w2) by (subst w2; lia).
  assert (Hcov : forall y x,
            covers r2 y x
            <-> (Z.to_nat (rect_y r2) <= y < Z.to_nat (rect_y r2) + h2)
                /\ (Z.to_nat (rect_x r2) <= x < Z.to_nat (rect_x r2) + w2)).
  { intros y x. unfold covers. subst h2 w2. lia. }
  intros y x d Hpx.
  destruct (pixel_Some _ _ _ _ Hpx) as (row & Hrow & Hdx).
  assert (Hy : y < length img2) by (by eapply lookup_lt_Some).
  assert (Hrl : length row = width img2).
  { rewrite Forall_forall in Hrect. apply Hrect.
    by eapply list_elem_of_lookup_2. }
  assert (Hx : x < width img2) by (rewrite <- Hrl; by eapply lookup_lt_Some).
  destruct (broadcastable _ h2 && broadcastable _ w2) eqn:Hb; [|done].
  apply andb_true_iff in Hb as [Hb1 Hb2]. unfold broadcastable in Hb1, Hb2.
  apply orb_true_iff in Hb1, Hb2.
  rewrite !Nat.eqb_eq in Hb1, Hb2.
  destruct (_ && _) eqn:Heq in Hw.
  - (* the rectangle fits the canvas: the blend is stored *)
    apply andb_true_iff in Heq as [He1 He2].
    apply Nat.eqb_eq in He1, He2.
    assert (Hfy : Z.to_nat (rect_y r2) + h2 <= length img2) by lia.
    assert (Hfx : Z.to_nat (rect_x r2) + w2 <= width img2) by lia.
    rewrite Hsy, Hsx in Hw.
    rewrite (Nat.min_l _ _ (Nat.le_trans _ _ _ (Nat.le_add_r _ h2) Hfy)) in Hw.
    rewrite (Nat.min_l _ _ (Nat.le_trans _ _ _ (Nat.le_add_r _ w2) Hfx)) in Hw.
    injection Hw as Hw. subst img2'.
    set (new := blend_rows _ _ _).
    assert (Hnew : length new = h2).
    { subst new. rewrite length_blend_rows, !length_tabulate2.
      unfold slice2. rewrite length_map, length_slice; lia. }
    assert (Hpix : pixel (store_region (Z.to_nat (rect_y r2))
                            (Z.to_nat (rect_x r2)) new img2) y x
                   = if decide
                          ((Z.to_nat (rect_y r2) <= y
                            < Z.to_nat (rect_y r2) + h2)
                           /\ (Z.to_nat (rect_x r2) <= x
                               < Z.to_nat (rect_x r2) + w2))
                     then Some (blend d
                                  (mask_value E (local tri2 r2)
                                     (y - Z.to_nat (rect_y r2))
                                     (x - Z.to_nat (rect_x r2)))
                                  (dst (y - Z.to_nat (rect_y r2))
                                       (x - Z.to_nat (rect_x r2))))
                     else Some d).
    { unfold pixel. rewrite store_region_lookup by lia. rewrite Hnew.
      destruct (decide (Z.to_nat (rect_y r2) <= y
                        < Z.to_nat (rect_y r2) + h2)) as [Hyin|Hyout].
      - destruct (blend_rows_pixel img2 (rect_y r2) (rect_y r2 + rect_h r2)
                    (rect_x r2) (rect_x r2 + rect_w r2) h2 w2
                    (mask_value E (local tri2 r2)) dst
                    (y - Z.to_nat (rect_y r2)))
          as (nrow & row' & Hnrow & Hrow' & _ & Hnl & Hcols);
          [done|lia|lia|lia|lia|lia|].
        fold new in Hnrow. rewrite Hnrow. simpl. rewrite Hrow. simpl.
        rewrite Hsy in Hrow'.
        replace (Nat.min (Z.to_nat (rect_y r2)) (length img2)
                 + (y - Z.to_nat (rect_y r2))) with y in Hrow' by lia.
        rewrite Hrow in Hrow'. injection Hrow' as <-.
        rewrite set_slice_lookup by lia. rewrite Hnl.
        destruct (decide (Z.to_nat (rect_x r2) <= x
                          < Z.to_nat (rect_x r2) + w2)) as [Hxin|Hxout].
        + destruct (Hcols (x - Z.to_nat (rect_x r2))) as (d' & Hd' & Hnj);
            [lia|].
          rewrite Hsx in Hd'.
          replace (Nat.min (Z.to_nat (rect_x r2)) (width img2)
                   + (x - Z.to_nat (rect_x r2))) with x in Hd' by lia.
          rewrite Hdx in Hd'. injection Hd' as <-.
          rewrite Hnj. by rewrite decide_True.
        + rewrite Hdx. rewrite decide_False; [done|]. tauto.
      - rewrite Hrow. simpl. rewrite Hdx.
        rewrite decide_False; [done|]. tauto. }
    split.
    + intros Hout. rewrite Hpix. rewrite decide_False; [done|].
      by rewrite <- Hcov.
    + intros Hin. apply Hcov in Hin.
      rewrite Hpix. rewrite decide_True by done. split; [done|].
      intros Hfill Hvalid. unfold mask_value. rewrite Hfill.
      by rewrite blend_unmasked.
  - (* an axis of the region is empty: nothing is stored *)
    injection Hw as Hw. subst img2'. apply andb_false_iff in Heq.
    rewrite !Nat.eqb_neq in Heq.
    assert (Hnc : ~ covers r2 y x).
    { rewrite Hcov. lia. }
    split; [done|]. intros Hin. by destruct Hnc.
Qed.

End Compositor.

Lemma warp_triangles_local_witness :
  Forall (fun row => length row = width canvas36) canvas36
  /\ (0 <= rect_x (boundingRect tri_in))%Z
  /\ (0 <= rect_y (boundingRect tri_in))%Z
  /\ exists img2',
       warp_triangles demo static9 canvas36 tri_src tri_in = Ok img2'
       /\ exists warp_mat dst,
            getAffineTransform demo (local tri_src (boundingRect tri_src))
              (local tri_in (boundingRect tri_in)) = Some warp_mat
            /\ warpAffine demo
                 (slice2 (rect_y (boundingRect tri_src))
                    (rect_y (boundingRect tri_src)
                     + rect_h (boundingRect tri_src))
                    (rect_x (boundingRect tri_src))
                    (rect_x (boundingRect tri_src)
                     + rect_w (boundingRect tri_src)) static9)
                 warp_mat
                 (rect_w (boundingRect tri_in), rect_h (boundingRect tri_in))
               = Some dst
            /\ forall y x d,
                 pixel canvas36 y x = Some d ->
                 (~ covers (boundingRect tri_in) y x ->
                  pixel img2' y x = Some d)
                 /\ (covers (boundingRect tri_in) y x ->
                     pixel img2' y x
                     = Some (blend d
                               (mask_value demo
                                  (local tri_in (boundingRect tri_in))
                                  (y - Z.to_nat (rect_y (boundingRect tri_in)))
                                  (x - Z.to_nat (rect_x (boundingRect tri_in))))
                               (dst
                                  (y - Z.to_nat (rect_y (boundingRect tri_in)))
                                  (x - Z.to_nat (rect_x (boundingRect tri_in)))))
                     /\ (poly_fill demo (local tri_in (boundingRect tri_in))
                           (y - Z.to_nat (rect_y (boundingRect tri_in)))
                           (x - Z.to_nat (rect_x (boundingRect tri_in)))
                         = false ->
                         valid_pixel d -> pixel img2' y x = Some d)).
Proof.
  assert (Hrect : Forall (fun row => length row = width canvas36) canvas36)
    by (repeat constructor).
  assert (Hx : (0 <= rect_x (boundingRect tri_in))%Z) by (vm_compute; discriminate).
  assert (Hy : (0 <= rect_y (boundingRect tri_in))%Z) by (vm_compute; discriminate).
  split; [exact Hrect|]. split; [exact Hx|]. split; [exact Hy|].
  eexists. split; [vm_compute; reflexivity|].
  refine (warp_triangles_local demo static9 canvas36 tri_src tri_in _
            Hrect Hx Hy _).
  vm_compute. reflexivity.
Defined.

Lemma warp_errors_end_the_run_witness :
  get_landmarks strict (solid 1 1 2) = Some [(0, 0); (0, 0); (0, 0)]%Z
  /\ warp_triangles strict static9 (solid 1 1 2) tri_src flat_tri
     = Raise cv2_error
  /\ process_frames strict static9 [(0, 0); (2, 0); (0, 2)]%Z [(0, 1, 2)]
       [solid 1 1 2; solid 1 1 4] started
     = {| stdout := stdout started; writer_size := writer_size started;
          written := written started; status := Raise cv2_error |}.
Proof.
  assert (Hl : get_landmarks strict (solid 1 1 2)
               = Some [(0, 0); (0, 0); (0, 0)]%Z)
    by (vm_compute; reflexivity).
  assert (Hw : warp_triangles strict static9 (solid 1 1 2) tri_src flat_tri
               = Raise cv2_error) by (vm_compute; reflexivity).
  split; [exact Hl|]. split; [exact Hw|].
  exact (proj2 (warp_errors_end_the_run strict static9
                  [(0, 0); (2, 0); (0, 2)]%Z [(0, 1, 2)])
           (solid 1 1 2) [(0, 0); (0, 0); (0, 0)]%Z [] (0, 1, 2) []
           (solid 1 1 2) tri_src flat_tri cv2_error [solid 1 1 4] started
           eq_refl Hl eq_refl eq_refl eq_refl Hw).
Defined.

(** With the stand-in whose solver accepts every triangle, as OpenCV's does,
    a frame whose destination triangle has zero area is composited like any
    other and written. *)
Lemma degenerate_triangle_composited :
  get_landmarks demo (solid 1 1 2) = Some [(0, 0); (0, 0); (0, 0)]%Z
  /\ area2 flat_tri = 0%Z
  /\ process_frame demo static9 [(0, 0); (2, 0); (0, 2)]%Z [(0, 1, 2)]
       (solid 1 1 2) = Ok (Some (solid 1 1 2)).
Proof. repeat split; vm_compute; reflexivity. Qed.

(** *** The frame-drop policy *)

Section DropPolicy.

Variable E : externals.

Lemma emitted_without static_img static_landmarks tris before frame after :
  get_landmarks E frame = None ->
  emitted E static_img static_landmarks tris (before ++ frame :: after)
  = emitted E static_img static_landmarks tris (before ++ after).
Proof.
  intros Hnone. induction before as [|f before IH]; simpl.
  - unfold process_frame. by rewrite Hnone.
  - destruct (process_frame E static_img static_landmarks tris f)
      as [[out|]|e]; [by rewrite IH|done|done].
Qed.

(** Frame-drop policy: a frame read by the loop in which the detector finds
    no face contributes nothing to the output: the frames written are those
    written for the video without that frame, and the loop goes on with the
    frames after it. *)
Theorem frame_without_landmarks_dropped static_img static_landmarks tris
    first before frame after :
  get_landmarks E static_img = Some static_landmarks ->
  get_delaunay_triangles E
    (0, 0, Z.of_nat (width static_img), Z.of_nat (height static_img))%Z
    (map to_float static_landmarks) = Ok tris ->
  get_landmarks E frame = None ->
  written (process_video E static_img
             (Some (first :: before ++ frame :: after)))
  = written (process_video E static_img (Some (first :: before ++ after))).
Proof.
  intros Hl Ht Hnone. rewrite !(process_video_frames _ _ _ _ _ _ Hl Ht).
  rewrite !written_finish, !process_frames_written.
  by rewrite emitted_without.
Qed.

End DropPolicy.

Lemma frame_without_landmarks_dropped_witness :
  get_landmarks demo static9 = Some [(0, 0); (2, 0); (0, 2)]%Z
  /\ get_delaunay_triangles demo
       (0, 0, Z.of_nat (width static9), Z.of_nat (height static9))%Z
       (map to_float [(0, 0); (2, 0); (0, 2)]%Z) = Ok [(0, 1, 2)]
  /\ get_landmarks demo (solid 4 4 3) = None
  /\ written (process_video demo static9
                (Some (solid 4 4 1 :: [solid 4 4 2] ++ solid 4 4 3
                         :: [solid 4 4 4; solid 4 4 5])))
     = written (process_video demo static9
                  (Some (solid 4 4 1 :: [solid 4 4 2]
                           ++ [solid 4 4 4; solid 4 4 5]))).
Proof.
  assert (Hl : get_landmarks demo static9 = Some [(0, 0); (2, 0); (0, 2)]%Z)
    by (vm_compute; reflexivity).
  assert (Ht : get_delaunay_triangles demo
                 (0, 0, Z.of_nat (width static9),
                  Z.of_nat (height static9))%Z
                 (map to_float [(0, 0); (2, 0); (0, 2)]%Z) = Ok [(0, 1, 2)])
    by (vm_compute; reflexivity).
  assert (H3 : get_landmarks demo (solid 4 4 3) = None)
    by (vm_compute; reflexivity).
  split; [exact Hl|]. split; [exact Ht|]. split; [exact H3|].
  exact (frame_without_landmarks_dropped demo static9 _ _ (solid 4 4 1)
           [solid 4 4 2] (solid 4 4 3) [solid 4 4 4; solid 4 4 5] Hl Ht H3).
Defined.

(** *** Further properties of [match_histograms] *)

Lemma pixel_map (f : Pixel -> Pixel) (img : Image) y x :
  pixel (map (map f) img) y x = f <$> pixel img y x.
Proof.
  unfold pixel. rewrite map_fmap, list_lookup_fmap.
  destruct (img !! y) as [row|]; simpl; [|done].
  by rewrite map_fmap, list_lookup_fmap.
Qed.

Lemma merge_maps (f1 f2 f3 : Pixel -> Z) (img : Image) :
  merge [map (map f1) img; map (map f2) img; map (map f3) img]
  = Ok (map (map (fun p => (f1 p, f2 p, f3 p))) img).
Proof.
  unfold merge. rewrite !shape_map.
  destruct (decide (shape img = shape img /\ shape img = shape img))
    as [_|Hne]; [|by destruct Hne].
  f_equal. induction img as [|row img IH]; simpl; [done|].
  rewrite IH. f_equal. clear IH.
  induction row as [|p row IH]; simpl; [done|]. by rewrite IH.
Qed.

Lemma match_channel_plane (c : Pixel -> Z) (source : Image)
    (r_channel : Channel) :
  match_channel (plane c source) r_channel
  = map (map (fun p => matched_level (plane c source) r_channel (c p)))
        source.
Proof.
  unfold match_channel, LUT, matched_level, plane.
  rewrite map_map. apply map_ext. intros row. by rewrite map_map.
Qed.

(** What [match_histograms] returns, pixel by pixel: each channel of a
    source pixel goes through the table of its channel. *)
Lemma match_histograms_nonempty (source reference : Image) :
  is_empty source = false -> is_empty reference = false ->
  match_histograms source reference
  = Ok (map (map (fun p =>
                    (matched_level (plane blue source)
                       (plane blue reference) (blue p),
                     matched_level (plane green source)
                       (plane green reference) (green p),
                     matched_level (plane red source)
                       (plane red reference) (red p))))
            source).
Proof.
  intros Hs Hr. unfold match_histograms, split. rewrite Hs, Hr. simpl.
  change (map (map (fun p : Pixel => p.1.1)) source)
    with (plane blue source).
  change (map (map (fun p : Pixel => p.1.2)) source)
    with (plane green source).
  change (map (map (fun p : Pixel => p.2)) source) with (plane red source).
  change (map (map (fun p : Pixel => p.1.1)) reference)
    with (plane blue reference).
  change (map (map (fun p : Pixel => p.1.2)) reference)
    with (plane green reference).
  change (map (map (fun p : Pixel => p.2)) reference)
    with (plane red reference).
  rewrite !match_channel_plane. apply merge_maps.
Qed.

Lemma match_histograms_empty (source reference : Image) :
  is_empty source = true \/ is_empty reference = true ->
  match_histograms source reference = Raise cv2_error.
Proof.
  intros H. unfold match_histograms, split.
  destruct (is_empty source), (is_empty reference); try done.
  by destruct H.
Qed.

Lemma match_histograms_Ok_inv (source reference out : Image) :
  match_histograms source reference = Ok out ->
  is_empty source = false /\ is_empty reference = false.
Proof.
  intros H. destruct (is_empty source) eqn:Hs.
  - rewrite match_histograms_empty in H by auto. done.
  - destruct (is_empty reference) eqn:Hr; [|done].
    rewrite match_histograms_empty in H by auto. done.
Qed.

Lemma to_uint8_range v : uint8_range (to_uint8 v).
Proof. unfold uint8_range, to_uint8. apply Z.mod_pos_bound. lia. Qed.

Lemma histogram_lookup_entry (s_hist r_hist : list nat) i :
  i < 256 ->
  exists g,
    histogram_lookup s_hist r_hist !! i = Some g
    /\ histogram_lookup s_hist r_hist !!! i = g
    /\ g <= 255.
Proof.
  intros Hi. unfold histogram_lookup.
  destruct (lookup_lt_is_Some_2 (lookup_table (cdf s_hist) (cdf r_hist)) i)
    as [g Hg]; [rewrite length_lookup_table; lia|].
  exists g. split; [done|]. split; [by apply list_lookup_total_correct|].
  by eapply lookup_table_le_255.
Qed.

Lemma histogram_lookup_total_mono (s_hist r_hist : list nat) i j :
  i <= j -> j < 256 ->
  histogram_lookup s_hist r_hist !!! i <= histogram_lookup s_hist r_hist !!! j.
Proof.
  intros Hij Hj.
  destruct (histogram_lookup_entry s_hist r_hist i) as (x & Hx & -> & _);
    [lia|].
  destruct (histogram_lookup_entry s_hist r_hist j) as (y & Hy & -> & _);
    [lia|].
  unfold histogram_lookup, lookup_table in Hx, Hy.
  by destruct (fill_lookup_mono _ _ _ _ _ _ _ _ Hij Hx Hy).
Qed.

Lemma matched_level_eq (s_channel r_channel : Channel) v :
  uint8_range v ->
  matched_level s_channel r_channel v
  = Z.of_nat (histogram_lookup (histogram (concat s_channel))
                (histogram (concat r_channel)) !!! Z.to_nat v).
Proof.
  intros Hv. unfold matched_level. rewrite (to_uint8_id v Hv).
  destruct (histogram_lookup_entry (histogram (concat s_channel))
              (histogram (concat r_channel)) (Z.to_nat v))
    as (g & _ & -> & Hg); [unfold uint8_range in Hv; lia|].
  apply to_uint8_id. unfold uint8_range. lia.
Qed.

Lemma matched_level_mono (s_channel r_channel : Channel) u v :
  uint8_range u -> uint8_range v -> (u <= v)%Z ->
  (matched_level s_channel r_channel u
   <= matched_level s_channel r_channel v)%Z.
Proof.
  intros Hu Hv Huv. rewrite !matched_level_eq by done.
  apply inj_le, histogram_lookup_total_mono; unfold uint8_range in *; lia.
Qed.

Lemma valid_pixel_at (img : Image) y x p :
  valid_image img -> pixel img y x = Some p -> valid_pixel p.
Proof.
  intros Hv Hp. apply pixel_Some in Hp as (row & Hrow & Hp).
  unfold valid_image in Hv. rewrite Forall_forall in Hv.
  specialize (Hv row (list_elem_of_lookup_2 _ _ _ Hrow)).
  rewrite Forall_forall in Hv. apply Hv. by eapply list_elem_of_lookup_2.
Qed.

(** Shape and range of the result: for a source and a reference that hold
    at least one pixel each, of whatever sizes, [match_histograms] returns an
    image of the shape of the source whose channel values are [uint8]. *)
Theorem match_histograms_shape (source reference : Image) :
  is_empty source = false -> is_empty reference = false ->
  exists out,
    match_histograms source reference = Ok out
    /\ shape out = shape source
    /\ valid_image out.
Proof.
  intros Hs Hr. eexists. split; [by apply match_histograms_nonempty|].
  split.
  - unfold shape. rewrite map_map. apply map_ext. intros row.
    apply length_map.
  - unfold valid_image. rewrite map_fmap. apply Forall_fmap, Forall_true.
    intros row. simpl. rewrite map_fmap. apply Forall_fmap, Forall_true.
    intros p. simpl. unfold valid_pixel, matched_level. simpl.
    auto using to_uint8_range.
Qed.

Lemma match_histograms_shape_witness :
  is_empty small_source = false /\ is_empty small_reference = false
  /\ exists out,
       match_histograms small_source small_reference = Ok out
       /\ shape out = shape small_source
       /\ valid_image out.
Proof.
  split; [reflexivity|]. split; [reflexivity|].
  exact (match_histograms_shape small_source small_reference eq_refl eq_refl).
Defined.

(** Empty input: when the source or the reference holds no pixel,
    [cv2.split] yields no channel for it, the loop over the channel pairs
    does not run, and [cv2.merge] rejects the empty list of channels:
    [match_histograms] raises [cv2.error]; and it returns only when both
    images hold a pixel. *)
Theorem match_histograms_needs_pixels (source reference : Image) :
  (is_empty source = true \/ is_empty reference = true ->
   match_histograms source reference = Raise cv2_error)
  /\ (forall out,
        match_histograms source reference = Ok out ->
        is_empty source = false /\ is_empty reference = false).
Proof.
  split; [apply match_histograms_empty|].
  intros out. apply match_histograms_Ok_inv.
Qed.

(** Order preservation: in each channel, histogram matching keeps the order
    of intensities: of two pixels of a [uint8] source, the one that is not
    brighter in a channel is not brighter in that channel of the result. *)
Theorem match_histograms_order (source reference out : Image)
    y x y' x' p q p' q' :
  valid_image source ->
  match_histograms source reference = Ok out ->
  pixel source y x = Some p -> pixel source y' x' = Some q ->
  pixel out y x = Some p' -> pixel out y' x' = Some q' ->
  ((blue p <= blue q)%Z -> (blue p' <= blue q')%Z)
  /\ ((green p <= green q)%Z -> (green p' <= green q')%Z)
  /\ ((red p <= red q)%Z -> (red p' <= red q')%Z).
Proof.
  intros Hv Hm Hp Hq Hp' Hq'.
  destruct (match_histograms_Ok_inv _ _ _ Hm) as [Hs Hr].
  rewrite (match_histograms_nonempty _ _ Hs Hr) in Hm.
  injection Hm as <-.
  rewrite pixel_map, Hp in Hp'. rewrite pixel_map, Hq in Hq'.
  simpl in Hp', Hq'. injection Hp' as <-. injection Hq' as <-.
  destruct (valid_pixel_at _ _ _ _ Hv Hp) as (? & ? & ?).
  destruct (valid_pixel_at _ _ _ _ Hv Hq) as (? & ? & ?).
  unfold blue, green, red in *. simpl.
  repeat split; intros Hle; by apply matched_level_mono.
Qed.

Lemma match_histograms_order_witness :
  valid_image small_source
  /\ match_histograms small_source small_reference
     = Ok [[(50, 60, 90)%Z; (10, 20, 70)%Z]]
  /\ pixel small_source 0 1 = Some (1, 2, 3)%Z
  /\ pixel small_source 0 0 = Some (5, 6, 7)%Z
  /\ pixel [[(50, 60, 90)%Z; (10, 20, 70)%Z]] 0 1 = Some (10, 20, 70)%Z
  /\ pixel [[(50, 60, 90)%Z; (10, 20, 70)%Z]] 0 0 = Some (50, 60, 90)%Z
  /\ ((blue (1, 2, 3)%Z <= blue (5, 6, 7)%Z)%Z ->
      (blue (10, 20, 70)%Z <= blue (50, 60, 90)%Z)%Z)
  /\ ((green (1, 2, 3)%Z <= green (5, 6, 7)%Z)%Z ->
      (green (10, 20, 70)%Z <= green (50, 60, 90)%Z)%Z)
  /\ ((red (1, 2, 3)%Z <= red (5, 6, 7)%Z)%Z ->
      (red (10, 20, 70)%Z <= red (50, 60, 90)%Z)%Z).
Proof.
  assert (Hv : valid_image small_source).
  { repeat constructor; unfold uint8_range; simpl; lia. }
  assert (Hm : match_histograms small_source small_reference
               = Ok [[(50, 60, 90)%Z; (10, 20, 70)%Z]])
    by (vm_compute; reflexivity).
  split; [exact Hv|]. split; [exact Hm|].
  do 4 (split; [reflexivity|]).
  exact (match_histograms_order small_source small_reference _ 0 1 0 0
           _ _ _ _ Hv Hm eq_refl eq_refl eq_refl eq_refl).
Defined.

Lemma flt_frac (a b tp tq : Z) :
  (0 < tp)%Z -> (0 < tq)%Z ->
  flt (Ffin (Qmake a (Z.to_pos tp))) (Ffin (Qmake b (Z.to_pos tq))) = true
  <-> (a * tq < b * tp)%Z.
Proof.
  intros Hp Hq. rewrite flt_fin. unfold Qlt. simpl.
  by rewrite !Z2Pos.id.
Qed.

(** A source level that occurs is mapped to a level that occurs in the
    reference. *)
Lemma histogram_lookup_occurs (s_hist r_hist : list nat) v :
  length s_hist = 256 -> length r_hist = 256 ->
  0 < sum_list r_hist -> v < 256 -> 0 < s_hist !!! v ->
  0 < r_hist !!! (histogram_lookup s_hist r_hist !!! v).
Proof.
  intros Hls Hlr Htr Hv Hpos.
  assert (Hts : 0 < sum_list s_hist)
    by (pose proof (bin_le_total s_hist v); lia).
  destruct (histogram_lookup_entry s_hist r_hist v) as (g & Hg & -> & Hg255);
    [done|].
  unfold histogram_lookup in Hg.
  assert (Hmono : forall a b, a <= b -> b < 256 ->
            fge (cdf s_hist !!! b) (cdf s_hist !!! a) = true).
  { intros a b Hab Hb. apply cdf_mono; [done|done|lia]. }
  pose proof (lookup_table_exit _ _ _ _ Hg) as Hexit.
  pose proof (lookup_table_below _ (cdf r_hist) Hmono v g) as Hbelow.
  destruct (lookup_lt_is_Some_2 s_hist v) as [sv Hsv]; [lia|].
  rewrite (list_lookup_total_correct _ _ _ Hsv) in Hpos.
  pose proof (sum_take_S _ _ _ Hsv) as HSv.
  pose proof (sum_take_le_total s_hist (S v)) as HSle.
  destruct (lookup_lt_is_Some_2 r_hist g) as [rg Hrg]; [lia|].
  rewrite (list_lookup_total_correct _ _ _ Hrg).
  pose proof (sum_take_S _ _ _ Hrg) as HRg.
  rewrite !cdf_lookup in Hexit by lia.
  destruct g as [|g'].
  - apply andb_false_iff in Hexit as [Hexit|Hexit];
      [|apply Nat.ltb_ge in Hexit; lia].
    apply not_true_iff_false in Hexit. rewrite flt_frac in Hexit by lia.
    assert (H0 : sum_list (take 0 r_hist) = 0) by reflexivity.
    assert (Hprod : (0 < Z.of_nat (sum_list (take (S v) s_hist))
                         * Z.of_nat (sum_list r_hist))%Z)
      by (apply Z.mul_pos_pos; lia).
    destruct rg as [|rg]; [|lia].
    rewrite HRg, H0 in Hexit. simpl in Hexit. lia.
  - specialize (Hbelow g' Hg ltac:(lia)).
    rewrite !cdf_lookup in Hbelow by lia.
    apply flt_frac in Hbelow; [|lia..].
    destruct (decide (S g' < 255)) as [Hlt|Hge].
    + apply andb_false_iff in Hexit as [Hexit|Hexit];
        [|apply Nat.ltb_ge in Hexit; lia].
      apply not_true_iff_false in Hexit. rewrite flt_frac in Hexit by lia.
      nia.
    + assert (S g' = 255) as Heq by lia.
      assert (Hall : sum_list (take (S (S g')) r_hist) = sum_list r_hist).
      { rewrite take_ge by lia. done. }
      nia.
Qed.

Lemma concat_plane (c : Pixel -> Z) (img : Image) :
  concat (plane c img) = map c (concat img).
Proof. unfold plane. by rewrite concat_map. Qed.

Lemma pixel_In (img : Image) y x p :
  pixel img y x = Some p -> In p (concat img).
Proof.
  intros Hp. apply pixel_Some in Hp as (row & Hrow & Hp).
  apply in_concat. exists row.
  split; apply list_elem_of_In; by eapply list_elem_of_lookup_2.
Qed.

Lemma valid_pixel_In (img : Image) p :
  valid_image img -> In p (concat img) -> valid_pixel p.
Proof.
  intros Hv Hp. apply in_concat in Hp as (row & Hrow & Hp).
  unfold valid_image in Hv. rewrite Forall_forall in Hv.
  apply list_elem_of_In, Hv in Hrow. rewrite Forall_forall in Hrow.
  by apply Hrow, list_elem_of_In.
Qed.

Lemma is_empty_false {A} (rows : list (list A)) :
  is_empty rows = false -> exists a, In a (concat rows).
Proof.
  unfold is_empty. destruct (concat rows) as [|a l]; [done|].
  intros _. exists a. by left.
Qed.

Lemma histogram_count_pos (c : Pixel -> Z) (img : Image) p :
  uint8_range (c p) -> In p (concat img) ->
  0 < histogram (concat (plane c img)) !!! Z.to_nat (c p).
Proof.
  intros Hr Hin. unfold uint8_range in Hr.
  rewrite histogram_bin by lia. rewrite Z2Nat.id by lia.
  apply count_occ_In. rewrite concat_plane. by apply in_map.
Qed.

Lemma matched_level_occurs (c : Pixel -> Z) (source reference : Image) p :
  (forall p, valid_pixel p -> uint8_range (c p)) ->
  valid_image source -> valid_image reference ->
  is_empty reference = false ->
  In p (concat source) ->
  occurs (plane c reference)
    (matched_level (plane c source) (plane c reference) (c p)).
Proof.
  intros Hc Hvs Hvr Hne Hin.
  assert (Hr : uint8_range (c p)).
  { apply Hc. by apply (valid_pixel_In source). }
  rewrite matched_level_eq by done.
  set (s_hist := histogram (concat (plane c source))).
  set (r_hist := histogram (concat (plane c reference))).
  assert (Htr : 0 < sum_list r_hist).
  { destruct (is_empty_false _ Hne) as [q Hq].
    assert (Hrq : uint8_range (c q)).
    { apply Hc. by apply (valid_pixel_In reference). }
    pose proof (histogram_count_pos c reference q Hrq Hq).
    pose proof (bin_le_total r_hist (Z.to_nat (c q))). subst r_hist. lia. }
  destruct (histogram_lookup_entry s_hist r_hist (Z.to_nat (c p)))
    as (g & Hg & Hgt & Hg255); [unfold uint8_range in Hr; lia|].
  pose proof (histogram_lookup_occurs s_hist r_hist (Z.to_nat (c p))
                (length_histogram _) (length_histogram _) Htr
                ltac:(unfold uint8_range in Hr; lia)
                (histogram_count_pos c source p Hr Hin)) as Hocc.
  rewrite Hgt in Hocc |- *. subst r_hist.
  rewrite histogram_bin in Hocc by lia.
  unfold occurs. by apply (count_occ_In Z.eq_dec).
Qed.

(** No new intensity: every channel value of the result of matching a
    [uint8] source against a [uint8] reference occurs in that channel of the
    reference. *)
Theorem match_histograms_palette (source reference out : Image) y x p' :
  valid_image source -> valid_image reference ->
  match_histograms source reference = Ok out ->
  pixel out y x = Some p' ->
  occurs (plane blue reference) (blue p')
  /\ occurs (plane green reference) (green p')
  /\ occurs (plane red reference) (red p').
Proof.
  intros Hvs Hvr Hm Hp'.
  destruct (match_histograms_Ok_inv _ _ _ Hm) as [Hs Hr].
  rewrite (match_histograms_nonempty _ _ Hs Hr) in Hm.
  injection Hm as <-. rewrite pixel_map in Hp'.
  destruct (pixel source y x) as [p|] eqn:Hp; [|done].
  simpl in Hp'. injection Hp' as <-.
  apply pixel_In in Hp. unfold blue at 2, green at 2, red at 2. simpl.
  repeat split; apply matched_level_occurs; try done.
  - by intros q (? & _ & _).
  - by intros q (_ & ? & _).
  - by intros q (_ & _ & ?).
Qed.

Lemma match_histograms_palette_witness :
  valid_image small_source /\ valid_image small_reference
  /\ match_histograms small_source small_reference
     = Ok [[(50, 60, 90)%Z; (10, 20, 70)%Z]]
  /\ pixel [[(50, 60, 90)%Z; (10, 20, 70)%Z]] 0 1 = Some (10, 20, 70)%Z
  /\ occurs (plane blue small_reference) (blue (10, 20, 70)%Z)
  /\ occurs (plane green small_reference) (green (10, 20, 70)%Z)
  /\ occurs (plane red small_reference) (red (10, 20, 70)%Z).
Proof.
  assert (Hvs : valid_image small_source).
  { repeat constructor; unfold uint8_range; simpl; lia. }
  assert (Hvr : valid_image small_reference).
  { repeat constructor; unfold uint8_range; simpl; lia. }
  assert (Hm : match_histograms small_source small_reference
               = Ok [[(50, 60, 90)%Z; (10, 20, 70)%Z]])
    by (vm_compute; reflexivity).
  split; [exact Hvs|]. split; [exact Hvr|]. split; [exact Hm|].
  split; [reflexivity|].
  exact (match_histograms_palette small_source small_reference _ 0 1 _
           Hvs Hvr Hm eq_refl).
Defined.

(** *** Histograms and cumulative distributions *)

Lemma sum_list_map_add (f g : nat -> nat) (l : list nat) :
  sum_list (map (fun k => f k + g k) l)
  = sum_list (map f l) + sum_list (map g l).
Proof.
  induction l as [|k l IH]; simpl; [done|]. unfold id in *. lia.
Qed.

Lemma sum_list_indicator (v : Z) (n : nat) :
  sum_list (map (fun k => if Z.eq_dec v (Z.of_nat k) then 1 else 0)
              (seq 0 n))
  = if decide (0 <= v < Z.of_nat n)%Z then 1 else 0.
Proof.
  induction n as [|n IH].
  - simpl. case_decide; [lia|done].
  - rewrite seq_S, map_app, sum_list_with_app, IH. simpl. unfold id.
    destruct (Z.eq_dec v (Z.of_nat n)); repeat case_decide; lia.
Qed.

Lemma histogram_cons v flat :
  histogram (v :: flat)
  = map (fun k => (if Z.eq_dec v (Z.of_nat k) then 1 else 0)
                  + count_occ Z.eq_dec flat (Z.of_nat k))
        (seq 0 256).
Proof.
  unfold histogram. apply map_ext. intros k. simpl.
  by destruct (Z.eq_dec v (Z.of_nat k)).
Qed.

Lemma sum_histogram flat :
  Forall uint8_range flat -> sum_list (histogram flat) = length flat.
Proof.
  induction 1 as [|v flat Hv _ IH].
  - unfold histogram.
    assert (H : forall l : list nat,
              sum_list (map (fun k => count_occ Z.eq_dec [] (Z.of_nat k)) l)
              = 0).
    { induction l as [|k l IHl]; simpl in *; [done|]. exact IHl. }
    apply H.
  - rewrite histogram_cons, sum_list_map_add, sum_list_indicator.
    fold (histogram flat). rewrite IH. unfold uint8_range in Hv.
    case_decide; simpl; lia.
Qed.

(** [np.histogram] on a [uint8] channel counts every pixel exactly once:
    the 256 bins add up to the number of pixels, and the bin of a level is
    the number of its occurrences. *)
Theorem histogram_counts_every_pixel (flat : list Z) :
  Forall uint8_range flat ->
  length (histogram flat) = 256
  /\ sum_list (histogram flat) = length flat
  /\ forall v, uint8_range v ->
       histogram flat !! Z.to_nat v = Some (count_occ Z.eq_dec flat v).
Proof.
  intros Hv. split; [apply length_histogram|].
  split; [by apply sum_histogram|].
  intros v Hr. unfold uint8_range in Hr. unfold histogram.
  rewrite map_fmap, list_lookup_fmap, lookup_seq_lt by lia. simpl.
  by rewrite Z2Nat.id by lia.
Qed.

Lemma histogram_counts_every_pixel_witness :
  Forall uint8_range channel_a
  /\ length (histogram channel_a) = 256
  /\ sum_list (histogram channel_a) = length channel_a
  /\ forall v, uint8_range v ->
       histogram channel_a !! Z.to_nat v
       = Some (count_occ Z.eq_dec channel_a v).
Proof.
  assert (Hv : Forall uint8_range channel_a).
  { repeat constructor; unfold uint8_range; lia. }
  split; [exact Hv|]. exact (histogram_counts_every_pixel channel_a Hv).
Defined.

(** The cumulative distribution of a non-empty [uint8] channel is
    normalised: its 256 entries are finite, lie in [0, 1], do not decrease,
    and the last one is 1. *)
Theorem cdf_normalised (flat : list Z) :
  Forall uint8_range flat -> flat <> [] ->
  length (cdf (histogram flat)) = 256
  /\ (forall i, i < 256 ->
        exists q, cdf (histogram flat) !!! i = Ffin q
                  /\ (0 <= q)%Q /\ (q <= 1)%Q)
  /\ (forall i j, i <= j -> j < 256 ->
        fge (cdf (histogram flat) !!! j) (cdf (histogram flat) !!! i) = true)
  /\ exists q, cdf (histogram flat) !!! 255 = Ffin q /\ (q == 1)%Q.
Proof.
  intros Hv Hne.
  assert (Htot : sum_list (histogram flat) = length flat)
    by (by apply sum_histogram).
  assert (Hpos : 0 < sum_list (histogram flat)).
  { rewrite Htot. destruct flat; [done|simpl; lia]. }
  pose proof (length_histogram flat) as Hlen.
  split; [by rewrite length_cdf|]. split; [|split].
  - intros i Hi. eexists. split; [apply cdf_lookup; lia|].
    pose proof (sum_take_le_total (histogram flat) (S i)).
    unfold Qle. cbn [Qnum Qden]. rewrite Z2Pos.id by lia. split; lia.
  - intros i j Hij Hj. apply cdf_mono; [done|done|lia].
  - eexists. split; [apply cdf_lookup; lia|].
    rewrite take_ge by lia. unfold Qeq. cbn [Qnum Qden].
    rewrite Z2Pos.id by lia. lia.
Qed.

Lemma cdf_normalised_witness :
  Forall uint8_range channel_a /\ channel_a <> []
  /\ length (cdf (histogram channel_a)) = 256
  /\ (forall i, i < 256 ->
        exists q, cdf (histogram channel_a) !!! i = Ffin q
                  /\ (0 <= q)%Q /\ (q <= 1)%Q)
  /\ (forall i j, i <= j -> j < 256 ->
        fge (cdf (histogram channel_a) !!! j)
            (cdf (histogram channel_a) !!! i) = true)
  /\ exists q, cdf (histogram channel_a) !!! 255 = Ffin q /\ (q == 1)%Q.
Proof.
  assert (Hv : Forall uint8_range channel_a).
  { repeat constructor; unfold uint8_range; lia. }
  assert (Hne : channel_a <> []) by discriminate.
  split; [exact Hv|]. split; [exact Hne|].
  exact (cdf_normalised channel_a Hv Hne).
Defined.

(** *** Landmarks *)



Section Landmarks.

Variable E : externals.


End Landmarks.

(** *** Shapes through the compositor *)

Lemma slice_bound_le (i : Z) (n : nat) : slice_bound i n <= n.
Proof. unfold slice_bound. destruct (Z.ltb_spec i 0); lia. Qed.

Lemma slice_fits (lo hi : Z) (n : nat) :
  slice_start lo n + slice_len lo hi n <= n.
Proof.
  unfold slice_start, slice_len.
  pose proof (slice_bound_le lo n). pose proof (slice_bound_le hi n). lia.
Qed.

Lemma slice_lookup_Some {A} (lo hi : Z) (l : list A) i a :
  slice lo hi l !! i = Some a ->
  l !! (slice_start lo (length l) + i) = Some a
  /\ i < slice_len lo hi (length l).
Proof.
  unfold slice. intros H. apply lookup_take_Some in H as [H Hi].
  by rewrite lookup_drop in H.
Qed.

Lemma length_set_slice {A} (xs : nat) (new l : list A) :
  xs + length new <= length l -> length (set_slice xs new l) = length l.
Proof.
  intros H. unfold set_slice.
  rewrite !length_app, length_take, length_drop. lia.
Qed.

Lemma shape_lookup {A} (rows : list (list A)) y :
  shape rows !! y = length <$> rows !! y.
Proof. unfold shape. by rewrite map_fmap, list_lookup_fmap. Qed.

Lemma shape_store_region {A} (ys xs : nat) (new rows : list (list A)) :
  ys + length new <= length rows ->
  (forall i nrow row,
     new !! i = Some nrow -> rows !! (ys + i) = Some row ->
     xs + length nrow <= length row) ->
  shape (store_region ys xs new rows) = shape rows.
Proof.
  intros Hfit Hrows. apply list_eq. intros y.
  rewrite !shape_lookup, store_region_lookup by done.
  case_decide as Hy; [|done].
  destruct (lookup_lt_is_Some_2 new (y - ys)) as [nrow Hn]; [lia|].
  destruct (lookup_lt_is_Some_2 rows y) as [row Hr]; [lia|].
  rewrite Hn, Hr. simpl. f_equal. apply length_set_slice.
  apply (Hrows (y - ys)); [done|].
  by replace (ys + (y - ys)) with y by lia.
Qed.

Lemma blend_rows_row (region : Image) (mask : list (list FPixel))
    (patch : Image) i nrow :
  blend_rows region mask patch !! i = Some nrow ->
  exists drow, region !! i = Some drow /\ length nrow <= length drow.
Proof.
  unfold blend_rows. intros H.
  apply lookup_zip_with_Some in H as (drow & [mrow prow] & -> & Hd & _).
  exists drow. split; [done|]. rewrite length_zip_with. lia.
Qed.

Lemma width_shape (a b : Image) : shape a = shape b -> width a = width b.
Proof. destruct a, b; simpl; intros H; by simplify_eq. Qed.

Lemma rectangular_shape (a b : Image) :
  shape a = shape b -> rectangular a -> rectangular b.
Proof.
  intros Hs Ha. unfold rectangular in *.
  rewrite <- (width_shape _ _ Hs).
  assert (H : Forall (fun n => n = width a) (shape a)).
  { unfold shape. rewrite map_fmap. by apply Forall_fmap. }
  rewrite Hs in H. unfold shape in H. rewrite map_fmap in H.
  by apply Forall_fmap in H.
Qed.

Section Shapes.

Variable E : externals.

(** The compositor never resizes the canvas. *)
Lemma warp_triangles_shape_eq img1 img2 tri1 tri2 img2' :
  rectangular img2 ->
  warp_triangles E img1 img2 tri1 tri2 = Ok img2' ->
  shape img2' = shape img2.
Proof.
  intros Hrect Hw. unfold warp_triangles in Hw.
  destruct (apply_affine_transform E _ _ _ _) as [patch|e]; simpl in Hw;
    [|done].
  destruct (broadcastable _ _ && broadcastable _ _); [|done].
  destruct (_ && _) eqn:Heq in Hw; [|by injection Hw as <-].
  injection Hw as <-.
  apply andb_true_iff in Heq as [He1 He2]. apply Nat.eqb_eq in He1, He2.
  unfold height in *.
  apply shape_store_region.
  - pose proof (slice_fits (rect_y (boundingRect tri2))
                  (rect_y (boundingRect tri2) + rect_h (boundingRect tri2))
                  (length img2)).
    rewrite length_blend_rows. unfold slice2. rewrite length_map.
    rewrite length_slice by done. lia.
  - intros i nrow row Hn Hr.
    apply blend_rows_row in Hn as (drow & Hd & Hle).
    unfold slice2 in Hd. rewrite map_fmap, list_lookup_fmap in Hd.
    apply fmap_Some in Hd as (row' & Hrow' & ->).
    apply slice_lookup_Some in Hrow' as [Hrow' _].
    rewrite Hr in Hrow'. injection Hrow' as <-.
    assert (Hlen : length row = width img2).
    { unfold rectangular in Hrect. rewrite Forall_forall in Hrect.
      apply Hrect. by eapply list_elem_of_lookup_2. }
    pose proof (slice_fits (rect_x (boundingRect tri2))
                  (rect_x (boundingRect tri2) + rect_w (boundingRect tri2))
                  (length row)) as Hfit.
    rewrite length_slice in Hle by done. rewrite <- Hlen. lia.
Qed.

Lemma warp_all_shape static_img static_landmarks frame_landmarks tris
    canvas out :
  rectangular canvas ->
  warp_all E static_img static_landmarks frame_landmarks tris canvas
  = Ok out ->
  shape out = shape canvas.
Proof.
  revert canvas. induction tris as [|t tris IH]; intros canvas Hrect; simpl.
  - intros H. by injection H as <-.
  - destruct (landmark_tri static_landmarks t) as [t1|]; simpl; [|done].
    destruct (landmark_tri frame_landmarks t) as [t2|]; simpl; [|done].
    destruct (warp_triangles E static_img canvas t1 t2) as [c|] eqn:Hw;
      simpl; [|done].
    intros H. pose proof (warp_triangles_shape_eq _ _ _ _ _ Hrect Hw) as Hs.
    rewrite (IH c); [done| |done].
    eapply rectangular_shape; [symmetry; exact Hs|done].
Qed.

End Shapes.

Section Canvas.

Variable E : externals.

(** The compositor never resizes the canvas: whenever [warp_triangles]
    returns on a rectangular canvas, wherever the destination triangle lies,
    the canvas keeps its number of rows and the length of every row. *)
Theorem warp_triangles_keeps_shape img1 img2 tri1 tri2 img2' :
  rectangular img2 ->
  warp_triangles E img1 img2 tri1 tri2 = Ok img2' ->
  shape img2' = shape img2
  /\ height img2' = height img2
  /\ width img2' = width img2
  /\ rectangular img2'.
Proof.
  intros Hrect Hw.
  pose proof (warp_triangles_shape_eq E _ _ _ _ _ Hrect Hw) as Hs.
  split; [done|]. split; [|split].
  - unfold height. by rewrite <- (length_map length img2'),
      <- (length_map length img2); fold (shape img2') (shape img2);
      rewrite Hs.
  - by apply width_shape.
  - eapply rectangular_shape; [symmetry; exact Hs|done].
Qed.


End Canvas.

Lemma warp_triangles_keeps_shape_witness :
  rectangular canvas36
  /\ exists img2',
       warp_triangles demo static9 canvas36 tri_src tri_left = Ok img2'
       /\ shape img2' = shape canvas36
       /\ height img2' = height canvas36
       /\ width img2' = width canvas36
       /\ rectangular img2'.
Proof.
  assert (Hrect : rectangular canvas36) by (repeat constructor).
  split; [exact Hrect|]. eexists. split; [vm_compute; reflexivity|].
  refine (warp_triangles_keeps_shape demo static9 canvas36 tri_src tri_left
            _ Hrect _).
  vm_compute. reflexivity.
Defined.


(** *** What the run writes *)

Lemma match_histograms_Ok_shape (source reference out : Image) :
  match_histograms source reference = Ok out ->
  shape out = shape source /\ valid_image out.
Proof.
  intros Hm. destruct (match_histograms_Ok_inv _ _ _ Hm) as [Hs Hr].
  rewrite (match_histograms_nonempty _ _ Hs Hr) in Hm. injection Hm as <-.
  split.
  - unfold shape. rewrite map_map. apply map_ext. intros row.
    apply length_map.
  - unfold valid_image. rewrite map_fmap. apply Forall_fmap, Forall_true.
    intros row. simpl. rewrite map_fmap. apply Forall_fmap, Forall_true.
    intros p. simpl. unfold valid_pixel, matched_level. simpl.
    auto using to_uint8_range.
Qed.

Section Output.

Variable E : externals.

Lemma process_frame_shape static_img static_landmarks tris frame out :
  rectangular frame ->
  process_frame E static_img static_landmarks tris frame = Ok (Some out) ->
  shape out = shape frame /\ valid_image out.
Proof.
  intros Hrect. unfold process_frame.
  destruct (get_landmarks E frame) as [lms|]; [|done].
  destruct (warp_all E static_img static_landmarks lms tris frame)
    as [warped|] eqn:Hw; simpl; [|done].
  destruct (match_histograms warped frame) as [corrected|] eqn:Hm; simpl;
    [|done].
  intros H. injection H as <-.
  destruct (match_histograms_Ok_shape _ _ _ Hm) as [Hs Hv].
  split; [|done]. rewrite Hs. by eapply warp_all_shape.
Qed.

Lemma emitted_elem static_img static_landmarks tris frames out :
  out ∈ emitted E static_img static_landmarks tris frames ->
  exists frame,
    frame ∈ frames
    /\ process_frame E static_img static_landmarks tris frame
       = Ok (Some out).
Proof.
  induction frames as [|f frames IH]; simpl; [by intros ?%elem_of_nil|].
  destruct (process_frame E static_img static_landmarks tris f)
    as [[o|]|e] eqn:Hf.
  - intros [->|Hin]%elem_of_cons.
    + exists f. split; [left|done].
    + destruct (IH Hin) as (frame & ? & ?). exists frame.
      split; [by right|done].
  - intros Hin. destruct (IH Hin) as (frame & ? & ?). exists frame.
    split; [by right|done].
  - by intros ?%elem_of_nil.
Qed.

Lemma length_emitted static_img static_landmarks tris frames :
  length (emitted E static_img static_landmarks tris frames)
  <= length frames.
Proof.
  induction frames as [|f frames IH]; simpl; [done|].
  destruct (process_frame E static_img static_landmarks tris f)
    as [[o|]|e]; simpl; lia.
Qed.

(** Whatever happens, the frames written are what the loop emits for the
    frames after the first, or nothing at all. *)
Lemma process_video_written static_img frames :
  written (process_video E static_img (Some frames)) = []
  \/ exists static_landmarks tris,
       written (process_video E static_img (Some frames))
       = emitted E static_img static_landmarks tris (tail frames).
Proof.
  unfold process_video.
  destruct (get_landmarks E static_img) as [lms|]; [|by left].
  destruct (get_delaunay_triangles E _ _) as [tris|e]; [|by left].
  destruct frames as [|first rest]; [by left|].
  right. exists lms, tris.
  by rewrite written_finish, process_frames_written.
Qed.

(** The output of a run: [process_video] never writes more frames than the
    video holds after its first frame, and every frame it writes is a
    [uint8] image of the shape of one of those frames. *)
Theorem written_frames_bounded static_img frames :
  Forall rectangular frames ->
  length (written (process_video E static_img (Some frames)))
  <= length frames - 1
  /\ forall out,
       out ∈ written (process_video E static_img (Some frames)) ->
       valid_image out
       /\ exists frame, frame ∈ tail frames /\ shape out = shape frame.
Proof.
  intros Hrect.
  destruct (process_video_written static_img frames) as [->|(lms & tris & ->)].
  - split; [simpl; lia|]. by intros out ?%elem_of_nil.
  - split.
    + pose proof (length_emitted static_img lms tris (tail frames)) as H.
      destruct frames as [|f frames]; simpl in *; lia.
    + intros out Hin.
      apply emitted_elem in Hin as (frame & Hframe & Hout).
      assert (Hr : rectangular frame).
      { rewrite Forall_forall in Hrect. apply Hrect.
        destruct frames as [|f frames]; [done|]. by right. }
      destruct (process_frame_shape _ _ _ _ _ Hr Hout) as [Hs Hv].
      split; [done|]. by exists frame.
Qed.

End Output.

Lemma written_frames_bounded_witness :
  Forall rectangular five_frames
  /\ length (written (process_video demo static9 (Some five_frames)))
     <= length five_frames - 1
  /\ forall out,
       out ∈ written (process_video demo static9 (Some five_frames)) ->
       valid_image out
       /\ exists frame, frame ∈ tail five_frames /\ shape out = shape frame.
Proof.
  assert (Hrect : Forall rectangular five_frames)
    by (repeat constructor).
  split; [exact Hrect|].
  exact (written_frames_bounded demo static9 five_frames Hrect).
Defined.

(** *** From a vertex to its index and back *)

Lemma same_point_near p q : same_point p q -> near p q = true.
Proof.
  intros [H1 H2]. unfold near.
  assert (E1 : (p.1 - q.1 == 0)%Q) by (rewrite H1; ring).
  assert (E2 : (p.2 - q.2 == 0)%Q) by (rewrite H2; ring).
  apply andb_true_iff. split; apply Qlt_bool_iff.
  - rewrite E1. reflexivity.
  - rewrite E2. reflexivity.
Qed.

Lemma same_point_integral p q : same_point p q -> integral q -> integral p.
Proof.
  intros [H1 H2] (x & y & Hx & Hy). exists x, y.
  split; [by rewrite H1|by rewrite H2].
Qed.

(** A vertex that is a point of a list of integer points resolves to an
    index, and the point at that index is the vertex. *)
Lemma resolve_integral points p :
  Forall integral points ->
  (exists i q, points !! i = Some q /\ same_point p q) ->
  exists k pk,
    resolve points p = Some k /\ points !! k = Some pk /\ same_point p pk.
Proof.
  intros Hpts (i & q & Hq & Hsame).
  assert (Hqi : integral q).
  { rewrite Forall_forall in Hpts. apply Hpts.
    by eapply list_elem_of_lookup_2. }
  destruct (list_find_elem_of (fun point => near p point = true) points q)
    as [[k pk] Hfind].
  { by eapply list_elem_of_lookup_2. }
  { by apply same_point_near. }
  exists k, pk. unfold resolve. rewrite Hfind. split; [done|].
  apply list_find_Some in Hfind as (Hk & Hnear & _). split; [done|].
  apply near_integral; [by eapply same_point_integral| |done].
  rewrite Forall_forall in Hpts. apply Hpts.
  by eapply list_elem_of_lookup_2.
Qed.

Section RoundTrip.

Variable E : externals.

(** Round trip of the index resolution: for integer points, a triangle of
    the subdivision that lies inside the region and whose three vertices are
    points of the list is kept, and the three indices returned for it point
    back at its three vertices, in order. *)
Theorem delaunay_triangle_round_trip rect points tris triangle_list t :
  get_delaunay_triangles E rect points = Ok tris ->
  subdiv_triangles E rect points = Some triangle_list ->
  t ∈ triangle_list ->
  Forall integral points ->
  inside rect (pt1 t) /\ inside rect (pt2 t) /\ inside rect (pt3 t) ->
  (exists i q, points !! i = Some q /\ same_point (pt1 t) q) ->
  (exists i q, points !! i = Some q /\ same_point (pt2 t) q) ->
  (exists i q, points !! i = Some q /\ same_point (pt3 t) q) ->
  exists a b c pa pb pc,
    (a, b, c) ∈ tris
    /\ points !! a = Some pa /\ same_point (pt1 t) pa
    /\ points !! b = Some pb /\ same_point (pt2 t) pb
    /\ points !! c = Some pc /\ same_point (pt3 t) pc.
Proof.
  intros Hrun Hsub Ht Hpts Hin H1 H2 H3.
  apply get_delaunay_triangles_Ok in Hrun as (tl & Hsub' & ->).
  rewrite Hsub in Hsub'. injection Hsub' as <-.
  destruct (resolve_integral _ _ Hpts H1) as (a & pa & Ra & Ha & Sa).
  destruct (resolve_integral _ _ Hpts H2) as (b & pb & Rb & Hb & Sb).
  destruct (resolve_integral _ _ Hpts H3) as (c & pc & Rc & Hc & Sc).
  exists a, b, c, pa, pb, pc. split; [|done].
  apply list_elem_of_In, in_flat_map. exists t.
  split; [by apply list_elem_of_In|].
  apply list_elem_of_In, index_triple_elem. split.
  - by apply all_in_rect_inside.
  - by apply indices_three.
Qed.

End RoundTrip.

Lemma delaunay_triangle_round_trip_witness :
  get_delaunay_triangles demo region10 corner_points = Ok [(0, 1, 2)]
  /\ subdiv_triangles demo region10 corner_points
     = Some [outer_triangle;
             (0%Q, 0%Q, inject_Z 2, 0%Q, 0%Q, inject_Z 2)]
  /\ exists a b c pa pb pc,
       (a, b, c) ∈ [(0, 1, 2)]
       /\ corner_points !! a = Some pa
       /\ same_point (0%Q, 0%Q) pa
       /\ corner_points !! b = Some pb
       /\ same_point (inject_Z 2, 0%Q) pb
       /\ corner_points !! c = Some pc
       /\ same_point (0%Q, inject_Z 2) pc.
Proof.
  assert (Hrun : get_delaunay_triangles demo region10 corner_points
                 = Ok [(0, 1, 2)]) by (vm_compute; reflexivity).
  assert (Hsub : subdiv_triangles demo region10 corner_points
                 = Some [outer_triangle;
                         (0%Q, 0%Q, inject_Z 2, 0%Q, 0%Q, inject_Z 2)])
    by (vm_compute; reflexivity).
  split; [exact Hrun|]. split; [exact Hsub|].
  refine (delaunay_triangle_round_trip demo region10 corner_points _ _
            (0%Q, 0%Q, inject_Z 2, 0%Q, 0%Q, inject_Z 2) Hrun Hsub _ _ _
            _ _ _).
  - right. left.
  - repeat constructor; [exists 0%Z, 0%Z|exists 2%Z, 0%Z|exists 0%Z, 2%Z];
      split; reflexivity.
  - unfold inside. vm_compute. repeat split; discriminate.
  - exists 0, (0%Q, 0%Q). repeat split; reflexivity.
  - exists 1, (inject_Z 2, 0%Q). repeat split; reflexivity.
  - exists 2, (0%Q, inject_Z 2). repeat split; reflexivity.
Defined.

(** The lookup table is a table of [uint8] levels: whatever the two
    histograms, it has 256 entries and none exceeds 255, so the scan index
    [g] never runs past the reference distribution and the cast of the table
    to [uint8] changes nothing. *)
Theorem histogram_lookup_uint8 (s_hist r_hist : list nat) :
  length (histogram_lookup s_hist r_hist) = 256
  /\ Forall (fun g => g <= 255) (histogram_lookup s_hist r_hist)
  /\ forall g, g ∈ histogram_lookup s_hist r_hist ->
       to_uint8 (Z.of_nat g) = Z.of_nat g.
Proof.
  assert (Hall : Forall (fun g => g <= 255) (histogram_lookup s_hist r_hist)).
  { apply Forall_forall. intros g Hg.
    apply list_elem_of_lookup_1 in Hg as [i Hi].
    unfold histogram_lookup in Hi. by eapply lookup_table_le_255. }
  split; [apply length_lookup_table|]. split; [done|].
  intros g Hg. rewrite Forall_forall in Hall. specialize (Hall g Hg).
  apply to_uint8_id. unfold uint8_range. lia.
Qed.
